(** * gdocs-mcp: delegated-credential lifecycle and authenticated requests

    A shallow embedding of [src/drive-client.ts] (the [DriveClient] class:
    [getAccessToken], [request], [buildMultipart]) and of the OAuth handler
    ([handleAuthorize], [handleCallback]), together with the properties the
    specification states about them; then of the code around them (the
    [files] member of the client, the tool handlers that list, search,
    create and delete files, [formatDriveError], the token-exchange callback
    and [init] of [src/index.ts]), with further properties of the whole.

    Conventions.
    - JavaScript strings are [string], read as UTF-8 text; the empty string
      is the only falsy one.
    - Timestamps are milliseconds in [Z], as returned by [Date.now()];
      [expires_in] is in seconds, as the provider returns it.
    - [async] functions are state transformers over the client object and
      the outside world; a rejected promise is the completion [Throw]. *)

From Stdlib Require Import ZArith Ascii Lia.
From Stdlib Require String.
From Stdlib Require Import DecimalString DecimalZ.
From stdpp Require Import base option list gmap strings.

Local Open Scope Z_scope.

(** ** JavaScript strings *)

Module Js.

(** [!!s] for a string: every string but the empty one is truthy. *)
Definition truthy (s : string) : bool :=
  match s with EmptyString => false | String _ _ => true end.

(** [value && ...] where [value : string | null | undefined]. *)
Definition truthy_opt (o : option string) : bool :=
  match o with Some s => truthy s | None => false end.

(** [haystack.includes(needle)]. *)
Fixpoint includes (needle haystack : string) : bool :=
  String.prefix needle haystack ||
  match haystack with
  | EmptyString => false
  | String _ rest => includes needle rest
  end.

(** [parts.join(sep)] is [String.concat sep parts]. *)
Definition join (sep : string) (parts : list string) : string :=
  String.concat sep parts.

Definition CR : ascii := "013"%char.
Definition LF : ascii := "010"%char.
Definition CRLF : string := String CR (String LF EmptyString).

(** No carriage return occurs in [s]. *)
Fixpoint noCR (s : string) : bool :=
  match s with
  | EmptyString => true
  | String c rest => negb (Ascii.eqb c CR) && noCR rest
  end.

(** *** JSON values

    What [JSON.parse] produces and [JSON.stringify] consumes.  Numbers are
    restricted to the integers (those that JavaScript holds exactly and
    prints in plain decimal); an object is the list of its own properties in
    enumeration order, their names distinct. *)
#[warnings="-register-all"]
Inductive json : Type :=
| JNull
| JBool (b : bool)
| JNum (n : Z)
| JStr (s : string)
| JArr (items : list json)
| JObj (props : list (string * json)).

(** The value of property [k]; were a name listed twice, the later entry
    is the one that holds, as in [JSON.parse]. *)
Fixpoint assoc (k : string) (props : list (string * json)) : option json :=
  match props with
  | [] => None
  | (k', v) :: rest =>
      match assoc k rest with
      | Some v' => Some v'
      | None => if String.eqb k k' then Some v else None
      end
  end.

(** [v?.k]: [None] stands for [undefined].  [null?.k] is [undefined]; the
    property names the sources read ([error], [message], [scope]) are
    neither indices nor [length], so primitives and arrays do not have
    them. *)
Definition optGet (v : option json) (k : string) : option json :=
  match v with
  | Some (JObj props) => assoc k props
  | _ => None
  end.

(** [a ?? b] *)
Definition nullish {A} (v : option json) (some : json → A) (none : A) : A :=
  match v with
  | None | Some JNull => none
  | Some x => some x
  end.

Definition decimal (n : Z) : string := NilEmpty.string_of_int (Z.to_int n).

(** [String(v)], as the [Error] constructor applies it to its message. *)
Fixpoint ToString (v : json) : string :=
  match v with
  | JNull => "null"
  | JBool true => "true"
  | JBool false => "false"
  | JNum n => decimal n
  | JStr s => s
  | JArr items =>
      join "," (map (λ x, match x with JNull => "" | _ => ToString x end) items)
  | JObj _ => "[object Object]"
  end.

(** *** [JSON.stringify]

    [JSON.stringify(value)] with no replacer and no indentation
    (ECMA-262, SerializeJSONProperty and QuoteJSONString). *)

Definition DQ : ascii := "034"%char.   (* the double quote *)
Definition BS : ascii := "092"%char.   (* the backslash *)

Definition hexDigit (n : N) : ascii :=
  ascii_of_N (if (n <? 10)%N then 48 + n else 87 + n).

Definition escapeChar (c : ascii) : string :=
  let n := N_of_ascii c in
  if (n =? 8)%N then String BS "b"
  else if (n =? 9)%N then String BS "t"
  else if (n =? 10)%N then String BS "n"
  else if (n =? 12)%N then String BS "f"
  else if (n =? 13)%N then String BS "r"
  else if (n =? 34)%N then String BS (String DQ "")
  else if (n =? 92)%N then String BS (String BS "")
  else if (n <? 32)%N then
    String BS (String "u" (String "0" (String "0"
      (String (hexDigit (n / 16)) (String (hexDigit (n mod 16)) "")))))
  else String c "".

Fixpoint escapeChars (s : string) : string :=
  match s with
  | EmptyString => ""
  | String c rest => escapeChar c +:+ escapeChars rest
  end.

Definition quoteJSON (s : string) : string :=
  String DQ (escapeChars s +:+ String DQ "").

Fixpoint JSON_stringify (v : json) : string :=
  match v with
  | JNull => "null"
  | JBool true => "true"
  | JBool false => "false"
  | JNum n => decimal n
  | JStr s => quoteJSON s
  | JArr items => "[" +:+ join "," (map JSON_stringify items) +:+ "]"
  | JObj props =>
      "{" +:+ join "," (map (λ p, quoteJSON (fst p) +:+ ":" +:+ JSON_stringify (snd p))
                           props) +:+ "}"
  end.

(** How a property is written: its name, quoted, a colon, its value. *)
Definition member (p : string * json) : string :=
  quoteJSON (fst p) +:+ ":" +:+ JSON_stringify (snd p).

(** *** [JSON.parse]

    A recursive-descent reader of the JSON grammar (RFC 8259) for the values
    above: numbers without fraction or exponent; [\uXXXX] escapes are stored
    in UTF-8. *)

Definition isWs (c : ascii) : bool :=
  let n := N_of_ascii c in
  (n =? 32)%N || (n =? 9)%N || (n =? 10)%N || (n =? 13)%N.

Fixpoint skipWs (s : string) : string :=
  match s with
  | String c rest => if isWs c then skipWs rest else s
  | EmptyString => s
  end.

Fixpoint stripPrefix (p s : string) : option string :=
  match p, s with
  | EmptyString, _ => Some s
  | String a p', String b s' => if Ascii.eqb a b then stripPrefix p' s' else None
  | String _ _, EmptyString => None
  end.

Definition hexVal (c : ascii) : option N :=
  let n := N_of_ascii c in
  if (48 <=? n)%N && (n <=? 57)%N then Some (n - 48)%N
  else if (97 <=? n)%N && (n <=? 102)%N then Some (n - 87)%N
  else if (65 <=? n)%N && (n <=? 70)%N then Some (n - 55)%N
  else None.

Definition hex4 (a b c d : ascii) : option N :=
  x ← hexVal a; y ← hexVal b; z ← hexVal c; w ← hexVal d;
  Some (((x * 16 + y) * 16 + z) * 16 + w)%N.

Definition utf8 (cp : N) : string :=
  if (cp <? 128)%N then String (ascii_of_N cp) ""
  else if (cp <? 2048)%N then
    String (ascii_of_N (192 + cp / 64))
      (String (ascii_of_N (128 + cp mod 64)) "")
  else
    String (ascii_of_N (224 + cp / 4096))
      (String (ascii_of_N (128 + (cp / 64) mod 64))
         (String (ascii_of_N (128 + cp mod 64)) "")).

Definition unescape (e : ascii) : option ascii :=
  let n := N_of_ascii e in
  if (n =? 34)%N then Some DQ
  else if (n =? 92)%N then Some BS
  else if (n =? 47)%N then Some "/"%char
  else if (n =? 98)%N then Some "008"%char
  else if (n =? 102)%N then Some "012"%char
  else if (n =? 110)%N then Some LF
  else if (n =? 114)%N then Some CR
  else if (n =? 116)%N then Some "009"%char
  else None.

(** The characters of a string literal, after its opening quote. *)
Fixpoint parseChars (s : string) : option (string * string) :=
  match s with
  | EmptyString => None
  | String c rest =>
      if Ascii.eqb c DQ then Some (EmptyString, rest)
      else if Ascii.eqb c BS then
        match rest with
        | EmptyString => None
        | String e rest1 =>
            if Ascii.eqb e "u" then
              match rest1 with
              | String h1 (String h2 (String h3 (String h4 rest2))) =>
                  cp ← hex4 h1 h2 h3 h4;
                  '(str, r) ← parseChars rest2;
                  Some (utf8 cp +:+ str, r)
              | _ => None
              end
            else
              ch ← unescape e;
              '(str, r) ← parseChars rest1;
              Some (String ch str, r)
        end
      else if (N_of_ascii c <? 32)%N then None
      else '(str, r) ← parseChars rest; Some (String c str, r)
  end.

Definition digitOf (c : ascii) : option (Decimal.uint → Decimal.uint) :=
  let n := N_of_ascii c in
  if (n =? 48)%N then Some Decimal.D0
  else if (n =? 49)%N then Some Decimal.D1
  else if (n =? 50)%N then Some Decimal.D2
  else if (n =? 51)%N then Some Decimal.D3
  else if (n =? 52)%N then Some Decimal.D4
  else if (n =? 53)%N then Some Decimal.D5
  else if (n =? 54)%N then Some Decimal.D6
  else if (n =? 55)%N then Some Decimal.D7
  else if (n =? 56)%N then Some Decimal.D8
  else if (n =? 57)%N then Some Decimal.D9
  else None.

(** [s] starts with a digit. *)
Definition digitHead (s : string) : bool :=
  match s with
  | String c _ => bool_decide (is_Some (digitOf c))
  | EmptyString => false
  end.

(** The longest run of digits at the head of [s]. *)
Fixpoint readDigits (s : string) : Decimal.uint * string :=
  match s with
  | EmptyString => (Decimal.Nil, s)
  | String c rest =>
      match digitOf c with
      | Some d => let '(u, r) := readDigits rest in (d u, r)
      | None => (Decimal.Nil, s)
      end
  end.

(** [-]? int, where int has no leading zero. *)
Definition parseNumber (s : string) : option (json * string) :=
  let '(negative, s1) :=
    match s with
    | String c rest => if Ascii.eqb c "-" then (true, rest) else (false, s)
    | EmptyString => (false, s)
    end in
  let '(u, rest) := readDigits s1 in
  if Decimal.uint_eq_dec (Decimal.unorm u) u
  then Some (JNum (if negative then - Z.of_uint u else Z.of_uint u), rest)
  else None.

(** [value (, value)* ]] *)
Fixpoint parseElements (value : string → option (json * string)) (n : nat)
    (s : string) : option (list json * string) :=
  match n with
  | O => None
  | S n' =>
      '(v, r) ← value s;
      match skipWs r with
      | EmptyString => None
      | String c r' =>
          if Ascii.eqb c "," then
            '(vs, r'') ← parseElements value n' r'; Some (v :: vs, r'')
          else if Ascii.eqb c "]" then Some ([v], r')
          else None
      end
  end.

(** [string : value (, string : value)* }] *)
Fixpoint parseMembers (value : string → option (json * string)) (n : nat)
    (s : string) : option (list (string * json) * string) :=
  match n with
  | O => None
  | S n' =>
      match skipWs s with
      | EmptyString => None
      | String q s1 =>
          if Ascii.eqb q DQ then
            '(k, s2) ← parseChars s1;
            match skipWs s2 with
            | EmptyString => None
            | String c s3 =>
                if Ascii.eqb c ":" then
                  '(v, r) ← value s3;
                  match skipWs r with
                  | EmptyString => None
                  | String d r' =>
                      if Ascii.eqb d "," then
                        '(ps, r'') ← parseMembers value n' r'; Some ((k, v) :: ps, r'')
                      else if Ascii.eqb d "}" then Some ([(k, v)], r')
                      else None
                  end
                else None
            end
          else None
      end
  end.

Fixpoint parseValue (fuel : nat) (s : string) : option (json * string) :=
  match fuel with
  | O => None
  | S fuel' =>
      match skipWs s with
      | EmptyString => None
      | String c rest =>
          if Ascii.eqb c "n" then r ← stripPrefix "ull" rest; Some (JNull, r)
          else if Ascii.eqb c "t" then r ← stripPrefix "rue" rest; Some (JBool true, r)
          else if Ascii.eqb c "f" then r ← stripPrefix "alse" rest; Some (JBool false, r)
          else if Ascii.eqb c DQ then '(str, r) ← parseChars rest; Some (JStr str, r)
          else if Ascii.eqb c "[" then
            match skipWs rest with
            | EmptyString => None
            | String d r =>
                if Ascii.eqb d "]" then Some (JArr [], r)
                else '(items, r') ← parseElements (parseValue fuel') fuel' rest;
                     Some (JArr items, r')
            end
          else if Ascii.eqb c "{" then
            match skipWs rest with
            | EmptyString => None
            | String d r =>
                if Ascii.eqb d "}" then Some (JObj [], r)
                else '(props, r') ← parseMembers (parseValue fuel') fuel' rest;
                     Some (JObj props, r')
            end
          else parseNumber (String c rest)
      end
  end.

(** The first character of a serialised value, as the reader sees it:
    no white space, and not the bracket that closes an array or object. *)
Definition opensValue (c : ascii) : Prop :=
  isWs c = false ∧ Ascii.eqb c "]" = false ∧ Ascii.eqb c "}" = false.

(** The number of nodes of a value. *)
Fixpoint size (v : json) : nat :=
  match v with
  | JArr items => S (foldr (λ x n, (size x + n)%nat) O items)
  | JObj props => S (foldr (λ p n, (size (snd p) + n)%nat) O props)
  | _ => 1%nat
  end.

(** [JSON.parse(text)]; [None] when it throws a [SyntaxError]. *)
Definition JSON_parse (text : string) : option json :=
  '(v, rest) ← parseValue (S (String.length text)) text;
  match skipWs rest with
  | EmptyString => Some v
  | String _ _ => None
  end.

End Js.

(** ** Asynchronous computations

    An [async] function runs against a mutable state [S] (the object it is a
    method of, and the world it talks to).  It completes normally or throws;
    mutations made before a throw persist. *)

Module Async.

Inductive exn : Type :=
| DriveApiError (status : Z) (message : string)
| SyntaxError          (** [JSON.parse] / [res.json()] on text that is not JSON *)
| TypeError.           (** [fetch] rejected: no response was received *)

Inductive completion (A : Type) : Type :=
| Return (a : A)
| Throw (e : exn).
Global Arguments Return {A} a.
Global Arguments Throw {A} e.

Definition t (S A : Type) : Type := S → completion A * S.

Definition ret {S A} (a : A) : t S A := λ s, (Return a, s).

Definition bind {S A B} (m : t S A) (k : A → t S B) : t S B :=
  λ s, match m s with
       | (Return a, s') => k a s'
       | (Throw e, s') => (Throw e, s')
       end.

Definition throw {S A} (e : exn) : t S A := λ s, (Throw e, s).
Definition gets {S A} (f : S → A) : t S A := λ s, (Return (f s), s).
Definition modify {S} (f : S → S) : t S unit := λ s, (Return tt, f s).

(** A projection of the state that a computation leaves as it was. *)
Definition stable {S A T} (f : S → T) (m : t S A) : Prop :=
  ∀ s, f (snd (m s)) = f s.

Global Instance async_ret {S} : MRet (t S) := λ A, @ret S A.
Global Instance async_bind {S} : MBind (t S) := λ A B k m, @bind S A B m k.

End Async.

(** ** The world outside: clock and HTTP endpoints *)

Module Http.

(** A [Response] as the sources read it: [status], [statusText],
    [await res.text()] and [await res.json()]; [body_json = None] when the body is
    not valid JSON, so that [res.json()] rejects.  [J] is the type the
    source asserts for the parsed body. *)
Record Response (J : Type) : Type := mkResponse {
  status : Z;
  statusText : string;
  body_text : string;
  body_json : option J;
}.
Global Arguments mkResponse {J} _ _ _ _.
Global Arguments status {J} _.
Global Arguments statusText {J} _.
Global Arguments body_text {J} _.
Global Arguments body_json {J} _.

(** [res.ok] *)
Definition ok {J} (res : Response J) : bool :=
  (200 <=? status res) && (status res <=? 299).

(** What one call of [fetch] meets: the time it takes and either a response
    or a network failure. *)
Record Reply (J : Type) : Type := mkReply {
  latency : N;
  response : option (Response J);
}.
Global Arguments mkReply {J} _ _.
Global Arguments latency {J} _.
Global Arguments response {J} _.

(** A scripted endpoint: the replies to the calls made to it, in order.
    Once the script is used up the network is down. *)
Definition next {J} (script : list (Reply J)) : Reply J * list (Reply J) :=
  match script with
  | [] => (mkReply 0%N None, [])
  | r :: rest => (r, rest)
  end.

(** The body of the provider's token response,
    [{ access_token: string; expires_in: number; refresh_token?: string }]. *)
Record TokenData : Type := mkTokenData {
  access_token : string;
  expires_in : Z;
  refresh_token : option string;
}.

(** [await res.json()] *)
Definition res_json {S J} (res : Response J) : Async.t S J :=
  match body_json res with
  | Some data => Async.ret data
  | None => Async.throw Async.SyntaxError
  end.

End Http.

(** ** [src/drive-client.ts] *)

Module Drive.
Import Js Async Http.

Definition TOKEN_URL : string := "https://oauth2.googleapis.com/token".

Record DriveClientConfig : Type := mkConfig {
  accessToken : string;
  refreshToken : string;
  clientId : string;
  clientSecret : string;
  expiresAt : option Z;
}.

Record DriveClient : Type := mkClient {
  config : DriveClientConfig;
  currentAccessToken : string;
  tokenExpiry : Z;
}.

(** [constructor(private config: DriveClientConfig)] *)
Definition new (cfg : DriveClientConfig) : DriveClient :=
  {| config := cfg;
     currentAccessToken := accessToken cfg;
     tokenExpiry := default 0 (expiresAt cfg) |}.

(** The [RequestInit] fields the client passes to [fetch]. *)
Record RequestInit : Type := mkInit {
  req_method : option string;
  req_headers : list (string * string);
  req_body : option string;
}.

(** The network calls the client makes, as the outside observes them. *)
Inductive Event : Type :=
| TokenExchange (client_id client_secret refresh_token grant_type : string)
| RemoteCall (url : string) (options : RequestInit) (authorization : string).

Record World : Type := mkWorld {
  now : Z;
  tokenEndpoint : list (Reply TokenData);
  remoteApi : list (Reply json);
  log : list Event;
}.

Definition M (A : Type) : Type := Async.t (DriveClient * World) A.

Definition this : M DriveClient := gets fst.

(** [Date.now()] *)
Definition Date_now : M Z := gets (λ s, now (snd s)).

Definition set_currentAccessToken (v : string) : M unit :=
  modify (λ '(c, w), ({| config := config c; currentAccessToken := v;
                         tokenExpiry := tokenExpiry c |}, w)).

Definition set_tokenExpiry (v : Z) : M unit :=
  modify (λ '(c, w), ({| config := config c;
                         currentAccessToken := currentAccessToken c;
                         tokenExpiry := v |}, w)).

(** [this.config.refreshToken = v] *)
Definition set_refreshToken (v : string) : M unit :=
  modify (λ '(c, w),
    ({| config := {| accessToken := accessToken (config c); refreshToken := v;
                     clientId := clientId (config c);
                     clientSecret := clientSecret (config c);
                     expiresAt := expiresAt (config c) |};
        currentAccessToken := currentAccessToken c;
        tokenExpiry := tokenExpiry c |}, w)).

(** [fetch(TOKEN_URL, { method: "POST", body: new URLSearchParams({...}) })] *)
Definition fetchToken (client_id client_secret refresh_token grant_type : string)
  : M (Response TokenData) :=
  λ '(c, w),
    let '(reply, rest) := next (tokenEndpoint w) in
    let w' := {| now := now w + Z.of_N (latency reply);
                 tokenEndpoint := rest;
                 remoteApi := remoteApi w;
                 log := log w ++ [TokenExchange client_id client_secret
                                    refresh_token grant_type] |} in
    match response reply with
    | Some res => (Return res, (c, w'))
    | None => (Throw TypeError, (c, w'))
    end.

(** [fetch(url, { ...options, headers })] with the [Authorization] header set *)
Definition fetchApi (url : string) (options : RequestInit) (authorization : string)
  : M (Response json) :=
  λ '(c, w),
    let '(reply, rest) := next (remoteApi w) in
    let w' := {| now := now w + Z.of_N (latency reply);
                 tokenEndpoint := tokenEndpoint w;
                 remoteApi := rest;
                 log := log w ++ [RemoteCall url options authorization] |} in
    match response reply with
    | Some res => (Return res, (c, w'))
    | None => (Throw TypeError, (c, w'))
    end.

Definition getAccessToken (forceRefresh : bool) : M string :=
  c ← this;
  now ← Date_now;
  if negb forceRefresh && truthy (currentAccessToken c) && (now <? tokenExpiry c)
  then mret (currentAccessToken c)
  else if negb (truthy (refreshToken (config c)))
  then throw (DriveApiError 401 "Access token expired and no refresh token available")
  else
    res ← fetchToken (clientId (config c)) (clientSecret (config c))
                     (refreshToken (config c)) "refresh_token";
    if negb (ok res) then
      let errorText := body_text res in
      if (status res =? 400) && includes "invalid_grant" errorText
      then throw (DriveApiError 401
             ("Google refresh token is invalid or revoked (" +:+ errorText +:+ ")"))
      else throw (DriveApiError (status res) ("Token refresh failed: " +:+ errorText))
    else
      data ← res_json res;
      set_currentAccessToken (access_token data);;
      (if truthy_opt (refresh_token data)
       then set_refreshToken (default "" (refresh_token data))
       else mret tt);;
      (* Refresh 60s before expiry *)
      now ← Date_now;
      set_tokenExpiry (now + (expires_in data - 60) * 1000);;
      c ← this;
      mret (currentAccessToken c).

Definition makeRequest (url : string) (options : RequestInit) (token : string)
  : M (Response json) :=
  fetchApi url options ("Bearer " +:+ token).

(** The message of the [DriveApiError] built from a failed response:
    [data?.error?.message ?? res.statusText], or [res.statusText] when
    [res.json()] throws; the [Error] constructor makes it a string. *)
Definition errorMessage (res : Response json) : string :=
  match body_json res with
  | Some data =>
      nullish (optGet (optGet (Some data) "error") "message") ToString (statusText res)
  | None => statusText res
  end.

Definition request (url : string) (options : RequestInit) : M (Response json) :=
  token ← getAccessToken false;
  res ← makeRequest url options token;
  (* If Google reports an auth failure, force a token refresh and retry once. *)
  res ← (if status res =? 401
         then token ← getAccessToken true; makeRequest url options token
         else mret res);
  if negb (ok res)
  then throw (DriveApiError (status res) (errorMessage res))
  else mret res.

(** The result of [buildMultipart]: [{ body: string; contentType: string }]. *)
Record Multipart : Type := mkMultipart {
  body : string;
  contentType : string;
}.

Definition buildMultipart (metadata : json) (content : string)
    (contentType : string) : Multipart :=
  let boundary := "-----gdrive-mcp-boundary" in
  let body := join CRLF [
    "--" +:+ boundary;
    "Content-Type: application/json; charset=UTF-8";
    "";
    JSON_stringify metadata;
    "--" +:+ boundary;
    "Content-Type: " +:+ contentType;
    "";
    content;
    "--" +:+ boundary +:+ "--"
  ] in
  {| body := body; contentType := "multipart/related; boundary=" +:+ boundary |}.

(** *** Observations on a run *)

(** The specification's names for the failures of the client; all of them
    are [DriveApiError]s, told apart by status and message. *)
Definition ErrNoRefreshToken : exn :=
  DriveApiError 401 "Access token expired and no refresh token available".
Definition ErrCredentialRevoked (errorText : string) : exn :=
  DriveApiError 401
    ("Google refresh token is invalid or revoked (" +:+ errorText +:+ ")").
Definition ErrRefreshFailed (status : Z) (errorText : string) : exn :=
  DriveApiError status ("Token refresh failed: " +:+ errorText).
Definition ErrRemoteRequestFailed (status : Z) (message : string) : exn :=
  DriveApiError status message.

Definition isTokenExchange (e : Event) : bool :=
  match e with TokenExchange _ _ _ _ => true | RemoteCall _ _ _ => false end.

Definition isRemoteCall (e : Event) : bool :=
  match e with RemoteCall _ _ _ => true | TokenExchange _ _ _ _ => false end.

(** The events a run from world [w] to world [w'] added to the log. *)
Definition during (w w' : World) : list Event := drop (length (log w)) (log w').

Definition refreshExchanges (evs : list Event) : nat :=
  length (filter (λ e, isTokenExchange e = true) evs).

Definition remoteCalls (evs : list Event) : nat :=
  length (filter (λ e, isRemoteCall e = true) evs).

End Drive.

(** ** Reading a multipart body

    The receiving side of [buildMultipart], after RFC 2046 section 5.1: the
    body is a sequence of lines separated by CRLF; the parts stand between
    delimiter lines ([--] followed by the boundary that the content-type
    header declares), the last one closed by the delimiter followed by [--];
    in a part, header lines come first, then an empty line, then the part's
    content.  This is the decoding that the round-trip property of the
    encoder refers to. *)

Module Mime.
Import Js.

Record Part : Type := mkPart {
  headers : list string;
  content : string;
}.

(** The [boundary] parameter of a [multipart/related] content type. *)
Definition boundaryOf (contentType : string) : option string :=
  stripPrefix "multipart/related; boundary=" contentType.

(** The lines of a text, CRLF being the line break. *)
Fixpoint lines (s : string) : list string :=
  match s with
  | EmptyString => [EmptyString]
  | String c rest =>
      let ordinary :=
        match lines rest with
        | l :: ls => String c l :: ls
        | [] => [String c EmptyString]
        end in
      match rest with
      | String d rest' =>
          if Ascii.eqb c CR && Ascii.eqb d LF then EmptyString :: lines rest'
          else ordinary
      | EmptyString => ordinary
      end
  end.

(** Header lines, an empty line, then the content. *)
Fixpoint decodePart (ls : list string) : option Part :=
  match ls with
  | [] => None
  | l :: rest =>
      if String.eqb l "" then Some {| headers := []; content := join CRLF rest |}
      else p ← decodePart rest;
           Some {| headers := l :: headers p; content := content p |}
  end.

(** A delimiter line starts with [--] and the boundary (padding may
    follow); the closing one goes on with [--]. *)
Definition isDelimiter (boundary line : string) : bool :=
  String.prefix ("--" +:+ boundary) line.

Definition isClose (boundary line : string) : bool :=
  String.prefix ("--" +:+ boundary +:+ "--") line.

(** The parts of the lines that follow the first delimiter line; [cur]
    holds the lines of the part being read, last line first. *)
Fixpoint decodeParts (boundary : string) (cur : list string)
    (ls : list string) : option (list Part) :=
  match ls with
  | [] => None
  | l :: rest =>
      if isClose boundary l then
        p ← decodePart (rev cur); Some [p]
      else if isDelimiter boundary l then
        p ← decodePart (rev cur);
        ps ← decodeParts boundary [] rest;
        Some (p :: ps)
      else decodeParts boundary (l :: cur) rest
  end.

Definition decode (contentType body : string) : option (list Part) :=
  boundary ← boundaryOf contentType;
  match lines body with
  | first :: rest =>
      if isDelimiter boundary first && negb (isClose boundary first)
      then decodeParts boundary [] rest
      else None
  | [] => None
  end.

(** A text can travel as a part under [boundary] when none of its lines
    starts as a delimiter line does. *)
Definition safeFor (boundary text : string) : bool :=
  forallb (λ l, negb (isDelimiter boundary l)) (lines text).

End Mime.

(** ** The OAuth handler ([handleAuthorize], [handleCallback]) *)

Module Handler.
Import Js Async Http.

Definition GOOGLE_AUTH_URL : string := "https://accounts.google.com/o/oauth2/v2/auth".
Definition GOOGLE_TOKEN_URL : string := "https://oauth2.googleapis.com/token".
Definition GOOGLE_USERINFO_URL : string :=
  "https://www.googleapis.com/oauth2/v2/userinfo".
Definition SCOPES : string :=
  join " " [
    "https://www.googleapis.com/auth/drive";
    "https://www.googleapis.com/auth/spreadsheets";
    "https://www.googleapis.com/auth/userinfo.email";
    "https://www.googleapis.com/auth/userinfo.profile"
  ].

(** What a handler reads of the incoming request: [new URL(request.url)]. *)
Record Request : Type := mkRequest {
  origin : string;
  pathname : string;
  searchParams : list (string * string);
}.

(** [url.searchParams.get(name)]: the first value under [name], or [null]. *)
Fixpoint searchParams_get (name : string) (params : list (string * string))
  : option string :=
  match params with
  | [] => None
  | (k, v) :: rest => if String.eqb k name then Some v else searchParams_get name rest
  end.

(** Where a redirect leads: a URL as given, or a base URL with the query
    parameters set on it. *)
Inductive Location : Type :=
| Href (url : string)
| WithQuery (base : string) (params : list (string * string)).

(** The [Response] a handler answers with. *)
Inductive Result : Type :=
| Respond (body : string) (status : Z)
| Redirect (location : Location) (status : Z).

(** The body of the user-info response, [{ id; email; name }]. *)
Record UserInfo : Type := mkUserInfo {
  id : string;
  email : string;
  name : string;
}.

(** The session state bound to the grant. *)
Record Props : Type := mkProps {
  accessToken : string;
  refreshToken : string;
  expiresAt : Z;
}.

(** The argument of [env.OAUTH_PROVIDER.completeAuthorization]. *)
Record CompleteAuthorizationOptions : Type := mkOptions {
  request : json;
  userId : string;
  metadata : string * string;       (* email, name *)
  scope : option json;
  props : Props;
}.

(** An entry of the KV namespace: its value and, when it was stored with a
    time to live, the time at which it expires. *)
Record KVEntry : Type := mkEntry {
  value : string;
  expiration : option Z;
}.

(** The calls the handler makes to the outside. *)
Inductive Event : Type :=
| CodeExchange (code client_id client_secret redirect_uri grant_type : string)
| UserInfoCall (authorization : string)
| CompleteAuthorization (options : CompleteAuthorizationOptions).

(** The environment of a handler run: bindings ([GOOGLE_CLIENT_ID],
    [GOOGLE_CLIENT_SECRET], [OAUTH_KV]), the clock, and the scripted
    collaborators ([crypto.randomUUID], [OAUTH_PROVIDER], the provider's
    token and user-info endpoints). *)
Record Env : Type := mkEnv {
  now : Z;
  GOOGLE_CLIENT_ID : string;
  GOOGLE_CLIENT_SECRET : string;
  OAUTH_KV : gmap string KVEntry;
  uuids : nat → string;
  drawn : nat;
  authRequests : list (option json);
  tokenEndpoint : list (Reply TokenData);
  userInfoEndpoint : list (Reply UserInfo);
  grants : list (option string);
  log : list Event;
}.

Definition M (A : Type) : Type := Async.t Env A.

Definition with_kv (kv : gmap string KVEntry) (e : Env) : Env :=
  {| now := now e; GOOGLE_CLIENT_ID := GOOGLE_CLIENT_ID e;
     GOOGLE_CLIENT_SECRET := GOOGLE_CLIENT_SECRET e; OAUTH_KV := kv;
     uuids := uuids e; drawn := drawn e; authRequests := authRequests e;
     tokenEndpoint := tokenEndpoint e; userInfoEndpoint := userInfoEndpoint e;
     grants := grants e; log := log e |}.

(** [Date.now()] *)
Definition Date_now : M Z := gets now.

(** [crypto.randomUUID()] *)
Definition randomUUID : M string :=
  λ e, (Return (uuids e (drawn e)),
        {| now := now e; GOOGLE_CLIENT_ID := GOOGLE_CLIENT_ID e;
           GOOGLE_CLIENT_SECRET := GOOGLE_CLIENT_SECRET e; OAUTH_KV := OAUTH_KV e;
           uuids := uuids e; drawn := S (drawn e); authRequests := authRequests e;
           tokenEndpoint := tokenEndpoint e; userInfoEndpoint := userInfoEndpoint e;
           grants := grants e; log := log e |}).

Definition expired (now : Z) (entry : KVEntry) : bool :=
  match expiration entry with
  | Some t => t <=? now
  | None => false
  end.

(** What the namespace holds under [key] at the time of [e]: expired
    entries are gone. *)
Definition kv_lookup (key : string) (e : Env) : option string :=
  match OAUTH_KV e !! key with
  | Some entry => if expired (now e) entry then None else Some (value entry)
  | None => None
  end.

(** [env.OAUTH_KV.get(key)] *)
Definition kv_get (key : string) : M (option string) := gets (kv_lookup key).

(** [env.OAUTH_KV.put(key, value, { expirationTtl })], the time to live in seconds *)
Definition kv_put (key value : string) (expirationTtl : Z) : M unit :=
  modify (λ e, with_kv (<[key := {| value := value;
                                    expiration := Some (now e + expirationTtl * 1000) |}]>
                          (OAUTH_KV e)) e).

(** [env.OAUTH_KV.delete(key)] *)
Definition kv_delete (key : string) : M unit :=
  modify (λ e, with_kv (delete key (OAUTH_KV e)) e).

(** [env.OAUTH_PROVIDER.parseAuthRequest(request)] *)
Definition parseAuthRequest (request : Request) : M json :=
  λ e,
    let e' := {| now := now e; GOOGLE_CLIENT_ID := GOOGLE_CLIENT_ID e;
                 GOOGLE_CLIENT_SECRET := GOOGLE_CLIENT_SECRET e;
                 OAUTH_KV := OAUTH_KV e; uuids := uuids e; drawn := drawn e;
                 authRequests := tail (authRequests e);
                 tokenEndpoint := tokenEndpoint e;
                 userInfoEndpoint := userInfoEndpoint e;
                 grants := grants e; log := log e |} in
    match authRequests e with
    | Some oauthReq :: _ => (Return oauthReq, e')
    | _ => (Throw TypeError, e')
    end.

(** [fetch(GOOGLE_TOKEN_URL, { method: "POST", body: new URLSearchParams({...}) })] *)
Definition fetchToken (code client_id client_secret redirect_uri grant_type : string)
  : M (Response TokenData) :=
  λ e,
    let '(reply, rest) := next (tokenEndpoint e) in
    let e' := {| now := now e + Z.of_N (latency reply);
                 GOOGLE_CLIENT_ID := GOOGLE_CLIENT_ID e;
                 GOOGLE_CLIENT_SECRET := GOOGLE_CLIENT_SECRET e;
                 OAUTH_KV := OAUTH_KV e; uuids := uuids e; drawn := drawn e;
                 authRequests := authRequests e;
                 tokenEndpoint := rest;
                 userInfoEndpoint := userInfoEndpoint e;
                 grants := grants e;
                 log := log e ++ [CodeExchange code client_id client_secret
                                    redirect_uri grant_type] |} in
    match response reply with
    | Some res => (Return res, e')
    | None => (Throw TypeError, e')
    end.

(** [fetch(GOOGLE_USERINFO_URL, { headers: { Authorization } })] *)
Definition fetchUserInfo (authorization : string) : M (Response UserInfo) :=
  λ e,
    let '(reply, rest) := next (userInfoEndpoint e) in
    let e' := {| now := now e + Z.of_N (latency reply);
                 GOOGLE_CLIENT_ID := GOOGLE_CLIENT_ID e;
                 GOOGLE_CLIENT_SECRET := GOOGLE_CLIENT_SECRET e;
                 OAUTH_KV := OAUTH_KV e; uuids := uuids e; drawn := drawn e;
                 authRequests := authRequests e;
                 tokenEndpoint := tokenEndpoint e;
                 userInfoEndpoint := rest;
                 grants := grants e;
                 log := log e ++ [UserInfoCall authorization] |} in
    match response reply with
    | Some res => (Return res, e')
    | None => (Throw TypeError, e')
    end.

(** [env.OAUTH_PROVIDER.completeAuthorization(options)], giving [redirectTo] *)
Definition completeAuthorization (options : CompleteAuthorizationOptions) : M string :=
  λ e,
    let e' := {| now := now e; GOOGLE_CLIENT_ID := GOOGLE_CLIENT_ID e;
                 GOOGLE_CLIENT_SECRET := GOOGLE_CLIENT_SECRET e;
                 OAUTH_KV := OAUTH_KV e; uuids := uuids e; drawn := drawn e;
                 authRequests := authRequests e;
                 tokenEndpoint := tokenEndpoint e;
                 userInfoEndpoint := userInfoEndpoint e;
                 grants := tail (grants e);
                 log := log e ++ [CompleteAuthorization options] |} in
    match grants e with
    | Some redirectTo :: _ => (Return redirectTo, e')
    | _ => (Throw TypeError, e')
    end.

(** [JSON.parse(stored)] *)
Definition parse (stored : string) : M json :=
  match JSON_parse stored with
  | Some v => mret v
  | None => throw SyntaxError
  end.

(** [oauthReq.scope]; reading a property of [null] throws. *)
Definition scopeOf (oauthReq : json) : M (option json) :=
  match oauthReq with
  | JNull => throw TypeError
  | _ => mret (optGet (Some oauthReq) "scope")
  end.

Definition stateKeyOf (stateKey : string) : string :=
  "google_oauth_state:" +:+ stateKey.

Definition handleAuthorize (request : Request) : M Result :=
  oauthReq ← parseAuthRequest request;
  (* Store the parsed MCP auth request in KV so we can retrieve it in callback *)
  stateKey ← randomUUID;
  kv_put (stateKeyOf stateKey) (JSON_stringify oauthReq) 600;;
  client_id ← gets GOOGLE_CLIENT_ID;
  mret (Redirect (WithQuery GOOGLE_AUTH_URL [
          ("client_id", client_id);
          ("redirect_uri", origin request +:+ "/callback");
          ("response_type", "code");
          ("scope", SCOPES);
          ("access_type", "offline");
          ("prompt", "consent");
          ("state", stateKey)
        ]) 302).

Definition handleCallback (request : Request) : M Result :=
  let url := request in
  let error := searchParams_get "error" (searchParams url) in
  if truthy_opt error then
    let desc := default (default "" error)
                        (searchParams_get "error_description" (searchParams url)) in
    mret (Respond ("Google OAuth error: " +:+ desc) 400)
  else
  let code := searchParams_get "code" (searchParams url) in
  let stateKey := searchParams_get "state" (searchParams url) in
  if negb (truthy_opt code) || negb (truthy_opt stateKey) then
    mret (Respond "Missing code or state parameter" 400)
  else
  (* Retrieve the original MCP auth request *)
  stored ← kv_get (stateKeyOf (default "" stateKey));
  if negb (truthy_opt stored) then
    mret (Respond "Invalid or expired OAuth state" 400)
  else
  kv_delete (stateKeyOf (default "" stateKey));;
  oauthReq ← parse (default "" stored);
  (* Exchange the Google auth code for tokens *)
  client_id ← gets GOOGLE_CLIENT_ID;
  client_secret ← gets GOOGLE_CLIENT_SECRET;
  tokenRes ← fetchToken (default "" code) client_id client_secret
                        (origin url +:+ "/callback") "authorization_code";
  if negb (ok tokenRes) then
    mret (Respond ("Google token exchange failed: " +:+ body_text tokenRes) 502)
  else
  tokens ← res_json tokenRes;
  if negb (truthy_opt (refresh_token tokens)) then
    mret (Respond "Google did not return a refresh token. Please revoke access at https://myaccount.google.com/permissions and try again." 400)
  else
  (* Get user info so we have a stable userId *)
  userRes ← fetchUserInfo ("Bearer " +:+ access_token tokens);
  if negb (ok userRes) then
    mret (Respond "Failed to fetch Google user info" 502)
  else
  userInfo ← res_json userRes;
  (* Complete the MCP OAuth flow *)
  scope ← scopeOf oauthReq;
  now ← Date_now;
  redirectTo ← completeAuthorization {|
    request := oauthReq;
    userId := id userInfo;
    metadata := (email userInfo, name userInfo);
    scope := scope;
    props := {| accessToken := access_token tokens;
                refreshToken := default "" (refresh_token tokens);
                expiresAt := now + expires_in tokens * 1000 |}
  |};
  mret (Redirect (Href redirectTo) 302).

(** The worker's [fetch]: dispatch on the path. *)
Definition fetch (request : Request) : M Result :=
  if String.eqb (pathname request) "/authorize" then handleAuthorize request
  else if String.eqb (pathname request) "/callback" then handleCallback request
  else mret (Respond "Not found" 404).

(** *** Observations on a run *)

Definition isCodeExchange (e : Event) : bool :=
  match e with CodeExchange _ _ _ _ _ => true | _ => false end.

(** The events a run from [e] to [e'] added to the log. *)
Definition during (e e' : Env) : list Event := drop (length (log e)) (log e').

Definition tokenEndpointCalls (evs : list Event) : nat :=
  length (filter (λ ev, isCodeExchange ev = true) evs).

(** The specification's names for the handler's failures. *)
Definition ErrInvalidOrExpiredState : Result :=
  Respond "Invalid or expired OAuth state" 400.
Definition ErrProviderDenied (description : string) : Result :=
  Respond ("Google OAuth error: " +:+ description) 400.
Definition ErrMissingRefreshToken : Result :=
  Respond "Google did not return a refresh token. Please revoke access at https://myaccount.google.com/permissions and try again." 400.

(** A callback that gets as far as the state lookup: it carries no
    provider error and a code. *)
Definition wellFormed (request : Request) : bool :=
  negb (truthy_opt (searchParams_get "error" (searchParams request))) &&
  truthy_opt (searchParams_get "code" (searchParams request)).

Definition succeeded (r : completion Result * Env) : bool :=
  match fst r with
  | Return (Redirect _ _) => true
  | _ => false
  end.

End Handler.

(** ** Scenarios

    Concrete clients, worlds and requests for the examples below. *)

Module Scenario.
Import Js Async Http Drive.

(** A client built by [new DriveClient(config)]. *)
Definition client (access refresh : string) (expiry : Z) : DriveClient :=
  new {| accessToken := access; refreshToken := refresh;
         clientId := "client-id"; clientSecret := "client-secret";
         expiresAt := Some expiry |}.

(** A token endpoint answer [200 OK] carrying [data], after 40 ms. *)
Definition granted (data : TokenData) : Reply TokenData :=
  mkReply 40%N (Some (mkResponse 200 "OK" "" (Some data))).

(** A token endpoint answer with an error status and body, after 40 ms. *)
Definition refused (status : Z) (text : string) : Reply TokenData :=
  mkReply 40%N (Some (mkResponse status "" text None)).

(** An answer of the remote API, after 25 ms. *)
Definition answered (status : Z) (statusText : string) (data : option json)
  : Reply json :=
  mkReply 25%N (Some (mkResponse status statusText "" data)).

Definition world (tokens : list (Reply TokenData)) (api : list (Reply json)) : World :=
  {| now := 1000000; tokenEndpoint := tokens; remoteApi := api; log := [] |}.

Definition AT2 : TokenData :=
  {| access_token := "AT2"; expires_in := 3600; refresh_token := None |}.

Definition listFiles : string := "https://www.googleapis.com/drive/v3/files".
Definition GET : RequestInit :=
  {| req_method := None; req_headers := []; req_body := None |}.

End Scenario.

Module Handshake.
Import Js Async Http Handler.

(** The tool-authorization request that [parseAuthRequest] returns. *)
Definition oauthReq : json :=
  JObj [("clientId", JStr "mcp-client"); ("scope", JArr [JStr "drive"])].

(** A worker environment before any handshake: an empty KV namespace. *)
Definition fresh (tokens : list (Reply TokenData)) (users : list (Reply UserInfo)) : Env :=
  {| now := 1000000;
     GOOGLE_CLIENT_ID := "client-id"; GOOGLE_CLIENT_SECRET := "client-secret";
     OAUTH_KV := ∅;
     uuids := λ _, "nonce-1"; drawn := 0;
     authRequests := [Some oauthReq];
     tokenEndpoint := tokens; userInfoEndpoint := users;
     grants := [Some "https://client.example/done"];
     log := [] |}.

Definition authorize : Request :=
  {| origin := "https://mcp.example"; pathname := "/authorize"; searchParams := [] |}.

(** The environment once [handleAuthorize] has issued the state [nonce-1]. *)
Definition begun (tokens : list (Reply TokenData)) (users : list (Reply UserInfo)) : Env :=
  snd (handleAuthorize authorize (fresh tokens users)).

(** The provider's callback for the issued state. *)
Definition callback : Request :=
  {| origin := "https://mcp.example"; pathname := "/callback";
     searchParams := [("code", "abc123"); ("state", "nonce-1")] |}.


Definition tokens : Reply TokenData :=
  mkReply 40%N (Some (mkResponse 200 "OK" ""
    (Some {| access_token := "AT1"; expires_in := 3600; refresh_token := Some "RT1" |}))).

Definition user : Reply UserInfo :=
  mkReply 30%N (Some (mkResponse 200 "OK" ""
    (Some {| id := "u1"; email := "a@b.com"; name := "A" |}))).

Definition unavailable : Reply TokenData :=
  mkReply 40%N (Some (mkResponse 503 "Service Unavailable" "backend error" None)).

End Handshake.

(** ** More observations on the handler *)

Module HandlerLog.
Import Js Async Http Handler.

(** The calls of one callback come in the order of the source: the code
    exchange, then the user-info call, then [completeAuthorization], each at
    most once and none without the one before. *)
Definition orderly (evs : list Event) : bool :=
  match evs with
  | [] => true
  | [CodeExchange _ _ _ _ _] => true
  | [CodeExchange _ _ _ _ _; UserInfoCall _] => true
  | [CodeExchange _ _ _ _ _; UserInfoCall _; CompleteAuthorization _] => true
  | _ => false
  end.

(** The environment at time [t], everything else as it is. *)
Definition at_time (t : Z) (e : Env) : Env :=
  {| now := t; GOOGLE_CLIENT_ID := GOOGLE_CLIENT_ID e;
     GOOGLE_CLIENT_SECRET := GOOGLE_CLIENT_SECRET e; OAUTH_KV := OAUTH_KV e;
     uuids := uuids e; drawn := drawn e; authRequests := authRequests e;
     tokenEndpoint := tokenEndpoint e; userInfoEndpoint := userInfoEndpoint e;
     grants := grants e; log := log e |}.

(** [handleCallback] from the token exchange on: what the function does
    once the state was found, deleted and parsed into [oauthReq]. *)
Definition redeem (request : Request) (code : string) (oauthReq : json) : M Result :=
  client_id ← gets GOOGLE_CLIENT_ID;
  client_secret ← gets GOOGLE_CLIENT_SECRET;
  tokenRes ← fetchToken code client_id client_secret
                        (origin request +:+ "/callback") "authorization_code";
  if negb (ok tokenRes) then
    mret (Respond ("Google token exchange failed: " +:+ body_text tokenRes) 502)
  else
  tokens ← res_json tokenRes;
  if negb (truthy_opt (refresh_token tokens)) then
    mret ErrMissingRefreshToken
  else
  userRes ← fetchUserInfo ("Bearer " +:+ access_token tokens);
  if negb (ok userRes) then
    mret (Respond "Failed to fetch Google user info" 502)
  else
  userInfo ← res_json userRes;
  scope ← scopeOf oauthReq;
  now ← Date_now;
  redirectTo ← completeAuthorization {|
    request := oauthReq;
    userId := id userInfo;
    metadata := (email userInfo, name userInfo);
    scope := scope;
    props := {| accessToken := access_token tokens;
                refreshToken := default "" (refresh_token tokens);
                expiresAt := now + expires_in tokens * 1000 |}
  |};
  mret (Redirect (Href redirectTo) 302).

End HandlerLog.

(** ** More observations on the client *)

Module DriveLog.
Import Js Async Http Drive.

(** An event of a [request] for [url] with [options]: the request itself
    under a bearer token, or a refresh exchange. *)
Definition addressed (url : string) (options : RequestInit) (ev : Event) : Prop :=
  match ev with
  | RemoteCall u o authorization =>
      u = url ∧ o = options ∧ ∃ token, authorization = "Bearer " +:+ token
  | TokenExchange _ _ _ grant_type => grant_type = "refresh_token"
  end.

(** The events of a [request] so far: calls for [url] with [options] and
    refresh exchanges, [n] calls and [m] exchanges at most. *)
Definition within (url : string) (options : RequestInit) (n m : nat)
    (evs : list Event) : Prop :=
  Forall (addressed url options) evs ∧
  (remoteCalls evs <= n)%nat ∧ (refreshExchanges evs <= m)%nat.

End DriveLog.

(** ** The host

    What the sources take from the platform and this development leaves
    uninterpreted: how a [URL] is written out, and the message that the
    engine gives to the errors it raises itself. *)

Module Host.
Import Async.

Record t : Type := mk {
  (** [url.toString()] for [url = new URL(input)] after
      [url.searchParams.set(name, value)] for each of the pairs, in order *)
  href : string → list (string * string) → string;
  (** [err.message] for an error that is not a [DriveApiError]; the
      messages of two errors of one kind are not told apart *)
  message : exn → string;
}.

End Host.

(** ** [encodeURIComponent] *)

Module Uri.
Import Js.







End Uri.

(** ** Values of type [any] *)

Module Any.
Import Js Async.

(** What a handler holds after [await res.json()] and the property reads
    that follow: a JSON value, or [undefined] ([None]). *)
Definition any : Type := option json.

(** [v.k] for the property names the handlers read, none of which a string,
    a number, a boolean or an array has: reading a property of [null] or
    [undefined] throws a [TypeError]. *)
Definition prop {S} (v : any) (k : string) : Async.t S any :=
  match v with
  | None | Some JNull => throw TypeError
  | Some _ => mret (optGet v k)
  end.

(** [v ? ... : ...] *)
Definition truthy (v : any) : bool :=
  match v with
  | None | Some JNull | Some (JBool false) | Some (JStr EmptyString) => false
  | Some (JNum n) => negb (n =? 0)
  | Some _ => true
  end.

(** [`${v}`] *)
Definition str (v : any) : string :=
  match v with
  | None => "undefined"
  | Some x => ToString x
  end.

(** [`${v ?? fallback}`] *)
Definition strOr (v : any) (fallback : string) : string :=
  nullish v ToString fallback.

(** [v === s] for a string [s] *)
Definition same (v : any) (s : string) : bool :=
  match v with
  | Some (JStr s') => String.eqb s' s
  | _ => false
  end.

(** [try { ... } catch (err) { ... }] *)
Definition try_catch {S A} (body : Async.t S A) (handler : exn → Async.t S A)
  : Async.t S A :=
  λ s, match body s with
       | (Return a, s') => (Return a, s')
       | (Throw err, s') => handler err s'
       end.

(** [for (const x of xs)] with a body that may throw, collecting results:
    [xs.map(f)]. *)
Fixpoint traverse {S A B} (f : A → Async.t S B) (xs : list A) : Async.t S (list B) :=
  match xs with
  | [] => mret []
  | x :: rest => y ← f x; ys ← traverse f rest; mret (y :: ys)
  end.

Definition NL : string := String LF "".

Definition quoted (s : string) : string := String DQ (s +:+ String DQ "").

End Any.

(** ** [src/types.ts] *)

Module Types.
Import Js Async.

(** Default fields returned for file metadata queries *)
Definition FILE_FIELDS : string :=
  "id, name, mimeType, modifiedTime, size, parents, webViewLink, description, trashed, createdTime".

(** What a tool handler returns: [{ isError?: true, content: [{ type: "text", text }] }],
    [content] given by the texts of its items. *)
Record ToolResult : Type := mkResult {
  isError : bool;
  content : list string;
}.

(** Helper to format error responses for MCP tool handlers *)
Definition errorResponse (message : string) : ToolResult :=
  {| isError := true; content := [message] |}.

(** Helper to format success text responses *)
Definition textResponse (text : string) : ToolResult :=
  {| isError := false; content := [text] |}.

(** Extract a user-friendly error message from a Drive API error.  What is
    thrown in a handler is a [DriveApiError] or an error of the engine, so
    the last case of the source, [String(err)], is never reached. *)
Definition formatDriveError (host : Host.t) (err : exn) : string :=
  match err with
  | DriveApiError status message =>
      if status =? 401 then
        "Authentication expired. Please check your credentials. (" +:+ message +:+ ")"
      else if status =? 403 then
        "Permission denied. You don't have access to this resource. (" +:+ message +:+ ")"
      else if status =? 404 then
        "Not found. The file or resource does not exist or you don't have access. ("
          +:+ message +:+ ")"
      else if status =? 400 then
        "Bad request: " +:+ message
      else message
  | _ => Host.message host err
  end.

End Types.

(** ** [src/drive-client.ts]: the [files] member *)

Module Client.
Import Js Async Http Drive Host Uri.

Definition API_BASE : string := "https://www.googleapis.com/drive/v3".
Definition UPLOAD_BASE : string := "https://www.googleapis.com/upload/drive/v3".

(** [for (const [key, value] of Object.entries(params))
      if (value !== undefined) url.searchParams.set(key, value)];
    an absent [params] is the empty list. *)
Definition setAll (params : list (string * option string)) : list (string * string) :=
  omap (λ p, pair (fst p) <$> snd p) params.

Definition apiUrl (host : Host.t) (path : string)
    (params : list (string * option string)) : string :=
  href host (API_BASE +:+ path) (setAll params).

Definition uploadUrl (host : Host.t) (path : string)
    (params : list (string * option string)) : string :=
  href host (UPLOAD_BASE +:+ path) (setAll params).

(** [options: RequestInit = {}] *)
Definition noOptions : RequestInit :=
  {| req_method := None; req_headers := []; req_body := None |}.

(** [{ method, headers: { "Content-Type": contentType }, body }] *)
Definition sending (method contentType body : string) : RequestInit :=
  {| req_method := Some method;
     req_headers := [("Content-Type", contentType)];
     req_body := Some body |}.

(** [params.requestBody ?? {}] *)
Definition orEmpty (requestBody : option json) : json :=
  nullish requestBody id (JObj []).

(** [files.list]; the result is the [data] of [{ data }]. *)
Definition files_list (host : Host.t)
    (q : option string) (pageSize : option Z)
    (fields orderBy pageToken : option string) : M json :=
  res ← request
    (apiUrl host "/files" [
       ("q", q);
       ("pageSize", decimal <$> pageSize);
       ("fields", fields);
       ("orderBy", orderBy);
       ("pageToken", pageToken)
     ]) noOptions;
  res_json res.

(** [files.create], [media] being [{ mimeType, body }] *)
Definition files_create (host : Host.t) (requestBody : option json)
    (media : option (string * string)) (fields : option string) : M json :=
  match media with
  | Some (mimeType, body) =>
      let mp := buildMultipart (orEmpty requestBody) body mimeType in
      res ← request
        (uploadUrl host "/files" [("uploadType", Some "multipart"); ("fields", fields)])
        (sending "POST" (contentType mp) (Drive.body mp));
      res_json res
  | None =>
      (* Metadata-only (e.g. folder creation) *)
      res ← request
        (apiUrl host "/files" [("fields", fields)])
        (sending "POST" "application/json" (JSON_stringify (orEmpty requestBody)));
      res_json res
  end.


End Client.

(** ** The tool handlers ([src/tools/files.ts], [src/tools/search.ts]) *)

Module Tools.
Import Js Async Http Drive Host Uri Any Types Client.

Definition FOLDER : string := "application/vnd.google-apps.folder".
Definition DOCUMENT : string := "application/vnd.google-apps.document".
Definition SPREADSHEET : string := "application/vnd.google-apps.spreadsheet".

(** [if (value) obj[key] = make(value)], as what it adds to the properties *)
Definition whenSet (key : string) (value : option string) (make : string → json)
  : list (string * json) :=
  if truthy_opt value then [(key, make (default "" value))] else [].

(** *** [gdrive_create_file] *)
Definition gdrive_create_file (host : Host.t) (name : string)
    (mimeType content parentId description : option string) : M ToolResult :=
  try_catch
    (let requestBody := JObj (
       [("name", JStr name)]
       ++ whenSet "mimeType" mimeType JStr
       ++ whenSet "parents" parentId (λ parentId, JArr [JStr parentId])
       ++ whenSet "description" description JStr) in
     let media :=
       if truthy_opt content then
         let uploadMime :=
           if bool_decide (mimeType = Some DOCUMENT) then "text/html"
           else if bool_decide (mimeType = Some SPREADSHEET) then "text/csv"
           else if truthy_opt mimeType then default "" mimeType
           else "text/plain" in
         Some (uploadMime, default "" content)
       else None in
     data ← files_create host (Some requestBody) media (Some FILE_FIELDS);
     mimeType' ← prop (Some data) "mimeType";
     name' ← prop (Some data) "name";
     id' ← prop (Some data) "id";
     webViewLink ← prop (Some data) "webViewLink";
     mret (textResponse (
       "Created " +:+ (if same mimeType' FOLDER then "folder" else "file")
       +:+ ": " +:+ quoted (str name') +:+ NL
       +:+ "ID: " +:+ str id' +:+ NL
       +:+ "Type: " +:+ str mimeType' +:+ NL
       +:+ "Link: " +:+ strOr webViewLink "N/A")))
    (λ err, mret (errorResponse ("Failed to create file: " +:+ formatDriveError host err))).


(** [files.length === 0] for [files = res.data.files ?? []], which is a
    JSON value other than [null] *)
Definition isEmpty (files : json) : bool :=
  match files with
  | JArr [] | JStr EmptyString => true
  | JObj props => match assoc "length" props with Some (JNum 0) => true | _ => false end
  | _ => false
  end.

(** The elements that [files.map] goes through: only an array has [map]. *)
Definition elements {S} (files : json) : Async.t S (list json) :=
  match files with
  | JArr xs => mret xs
  | _ => throw TypeError
  end.

(** *** [gdrive_list_files] *)
Definition gdrive_list_files (host : Host.t)
    (folderId : option string) (pageSize : option Z)
    (orderBy query pageToken : option string) (includeTrash : option bool)
  : M ToolResult :=
  try_catch
    (let clauses :=
       (if truthy_opt folderId then ["'" +:+ default "" folderId +:+ "' in parents"] else [])
       ++ (if truthy_opt query then [default "" query] else [])
       ++ (if negb (default false includeTrash) then ["trashed = false"] else []) in
     data ← files_list host
       (if bool_decide (0 < length clauses)%nat then Some (join " and " clauses) else None)
       (Some (default 20 pageSize))
       (Some ("nextPageToken, files(" +:+ FILE_FIELDS +:+ ")"))
       (Some (default "modifiedTime desc" orderBy))
       pageToken;
     files ← prop (Some data) "files";
     let files := nullish files id (JArr []) in
     if isEmpty files then mret (textResponse "No files found.")
     else
       fs ← elements files;
       lines ← traverse (λ f,
         size ← prop (Some f) "size";
         let size := if truthy size then " (" +:+ str size +:+ " bytes)" else "" in
         trashed ← prop (Some f) "trashed";
         let trashed := if truthy trashed then " [TRASHED]" else "" in
         name ← prop (Some f) "name";
         id ← prop (Some f) "id";
         mimeType ← prop (Some f) "mimeType";
         modifiedTime ← prop (Some f) "modifiedTime";
         mret ("- " +:+ str name +:+ size +:+ trashed +:+ NL
               +:+ "  ID: " +:+ str id +:+ NL
               +:+ "  Type: " +:+ str mimeType +:+ NL
               +:+ "  Modified: " +:+ str modifiedTime)) fs;
       let result :=
         "Files (" +:+ decimal (Z.of_nat (length fs)) +:+ "):" +:+ NL +:+ NL
         +:+ join (NL +:+ NL) lines in
       nextPageToken ← prop (Some data) "nextPageToken";
       mret (textResponse (
         if truthy nextPageToken
         then result +:+ NL +:+ NL +:+ "More results available. Use pageToken: "
              +:+ quoted (str nextPageToken)
         else result)))
    (λ err, mret (errorResponse ("Failed to list files: " +:+ formatDriveError host err))).

(** *** [gdrive_search] *)

(** [s.replace(/c/g, replacement)] for a character [c] *)
Fixpoint replaceAll (c : ascii) (replacement : string) (s : string) : string :=
  match s with
  | EmptyString => ""
  | String d rest =>
      (if Ascii.eqb d c then replacement else String d "") +:+ replaceAll c replacement rest
  end.

(** [s.endsWith(suffix)] *)
Fixpoint endsWith (suffix s : string) : bool :=
  String.eqb suffix s ||
  match s with
  | EmptyString => false
  | String _ rest => endsWith suffix rest
  end.

Definition escapedQuery (query : string) : string :=
  replaceAll "'" (String BS "'") (replaceAll BS (String BS (String BS "")) query).

Inductive FileType : Type :=
| document | spreadsheet | presentation | folder | pdf | image | video | audio.

Definition mimeMap (fileType : FileType) : string :=
  match fileType with
  | document => "application/vnd.google-apps.document"
  | spreadsheet => "application/vnd.google-apps.spreadsheet"
  | presentation => "application/vnd.google-apps.presentation"
  | folder => "application/vnd.google-apps.folder"
  | pdf => "application/pdf"
  | image => "image/"
  | video => "video/"
  | audio => "audio/"
  end.

Definition gdrive_search (host : Host.t) (query : string) (pageSize : option Z)
    (fileType : option FileType) (modifiedAfter : option string)
    (sharedWithMe : option bool) : M ToolResult :=
  try_catch
    (let clauses :=
       ["fullText contains '" +:+ escapedQuery query +:+ "'"]
       ++ match fileType with
          | Some fileType =>
              let mime := mimeMap fileType in
              if endsWith "/" mime
              then ["mimeType contains '" +:+ mime +:+ "'"]
              else ["mimeType = '" +:+ mime +:+ "'"]
          | None => []
          end
       ++ (if truthy_opt modifiedAfter
           then ["modifiedTime > '" +:+ default "" modifiedAfter +:+ "'"] else [])
       ++ (if default false sharedWithMe then ["sharedWithMe = true"] else [])
       ++ ["trashed = false"] in
     data ← files_list host
       (Some (join " and " clauses))
       (Some (default 20 pageSize))
       (Some ("files(" +:+ FILE_FIELDS +:+ ")"))
       (Some "modifiedTime desc")
       None;
     files ← prop (Some data) "files";
     let files := nullish files id (JArr []) in
     if isEmpty files
     then mret (textResponse ("No files found matching " +:+ quoted query +:+ "."))
     else
       fs ← elements files;
       lines ← traverse (λ f,
         size ← prop (Some f) "size";
         let size := if truthy size then " (" +:+ str size +:+ " bytes)" else "" in
         name ← prop (Some f) "name";
         id ← prop (Some f) "id";
         mimeType ← prop (Some f) "mimeType";
         modifiedTime ← prop (Some f) "modifiedTime";
         mret ("- " +:+ str name +:+ size +:+ NL
               +:+ "  ID: " +:+ str id +:+ NL
               +:+ "  Type: " +:+ str mimeType +:+ NL
               +:+ "  Modified: " +:+ str modifiedTime)) fs;
       mret (textResponse (
         "Found " +:+ decimal (Z.of_nat (length fs)) +:+ " file(s):" +:+ NL +:+ NL
         +:+ join (NL +:+ NL) lines)))
    (λ err, mret (errorResponse ("Search failed: " +:+ formatDriveError host err))).

(** The reading of a quoted literal that the escaping above is made for,
    from after the quote that opens it: the characters up to the closing
    quote, a backslash making the next character ordinary; it gives the text
    the literal stands for, and what follows the literal. *)
Fixpoint readLiteral (s : string) : option (string * string) :=
  match s with
  | EmptyString => None
  | String c rest =>
      if Ascii.eqb c "'" then Some (EmptyString, rest)
      else if Ascii.eqb c BS then
        match rest with
        | String e rest' =>
            '(text, r) ← readLiteral rest'; Some (String e text, r)
        | EmptyString => None
        end
      else '(text, r) ← readLiteral rest; Some (String c text, r)
  end.

End Tools.

(** ** [src/index.ts] *)

Module Index.
Import Js Http.

(** The session state of a grant, as the agent and the token-exchange
    callback read it. *)
Record Props : Type := mkProps {
  accessToken : string;
  refreshToken : string;
  expiresAt : Z;
  userId : option string;
  googleClientId : option string;
  googleClientSecret : option string;
}.

(** The body of the provider's answer to a refresh; an error body has none
    of the token fields, so every field may be missing. *)
Record GoogleTokenRefreshResponse : Type := mkRefreshResponse {
  access_token : option string;
  expires_in : option Z;
  refresh_token : option string;
  error : option string;
  error_description : option string;
}.

Inductive GrantType : Type := AUTHORIZATION_CODE | REFRESH_TOKEN.

(** What the callback reads of its [TokenExchangeCallbackOptions]. *)
Record TokenExchangeCallbackOptions : Type := mkOptions {
  grantType : GrantType;
  props : option Props;
  options_userId : string;
}.

(** What [refreshGoogleAccessToken] returns. *)
Record TokenExchangeCallbackResult : Type := mkCallbackResult {
  accessTokenProps : Props;
  newProps : Props;
  accessTokenTTL : Z;
}.

(** What is thrown: [new Error(message)], or an error of the engine
    ([fetch] rejecting, [tokenRes.json()] on a body that is not JSON). *)
Inductive thrown : Type :=
| Error (message : string)
| Engine (e : Async.exn).

(** The call to the provider's token endpoint, by the form fields sent. *)
Inductive Event : Type :=
| Refresh (client_id client_secret refresh_token grant_type : string).

Record World : Type := mkWorld {
  now : Z;
  tokenEndpoint : list (Reply GoogleTokenRefreshResponse);
  log : list Event;
}.

(** An [async] function of this file: it returns or throws, and leaves the
    world changed. *)
Definition M (A : Type) : Type := World → (A + thrown) * World.

(** [!data.expires_in] *)
Definition falsy_number (n : option Z) : bool :=
  match n with
  | Some n => n =? 0
  | None => true
  end.

Definition refreshGoogleAccessToken (options : TokenExchangeCallbackOptions)
  : M TokenExchangeCallbackResult :=
  λ w,
  match props options with
  | None => (inr (Error "Missing Google OAuth credentials in grant props"), w)
  | Some props =>
      if negb (truthy (refreshToken props))
         || negb (truthy_opt (googleClientId props))
         || negb (truthy_opt (googleClientSecret props))
      then (inr (Error "Missing Google OAuth credentials in grant props"), w)
      else
        let '(reply, rest) := next (tokenEndpoint w) in
        let w' := {| now := now w + Z.of_N (latency reply);
                     tokenEndpoint := rest;
                     log := log w ++ [Refresh (default "" (googleClientId props))
                                        (default "" (googleClientSecret props))
                                        (refreshToken props) "refresh_token"] |} in
        match response reply with
        | None => (inr (Engine Async.TypeError), w')
        | Some tokenRes =>
            match body_json tokenRes with
            | None => (inr (Engine Async.SyntaxError), w')
            | Some data =>
                if negb (ok tokenRes)
                   || negb (truthy_opt (access_token data))
                   || falsy_number (expires_in data)
                then
                  let code := default "unknown_error" (error data) in
                  let description :=
                    default "Google token refresh failed" (error_description data) in
                  (inr (Error (code +:+ ": " +:+ description)), w')
                else
                  let now := now w' in
                  let nextProps := {|
                    accessToken := default "" (access_token data);
                    refreshToken := default (refreshToken props) (refresh_token data);
                    expiresAt := now + default 0 (expires_in data) * 1000;
                    userId := Some (default (options_userId options) (userId props));
                    googleClientId := googleClientId props;
                    googleClientSecret := googleClientSecret props
                  |} in
                  (inl {| accessTokenProps := nextProps;
                          newProps := nextProps;
                          accessTokenTTL := Z.max 60 (default 0 (expires_in data) - 60) |},
                   w')
            end
        end
  end.


(** [GDriveMCP.init]: the client that it builds and registers the
    resources and tools with. *)
Definition init (props : option Props) (GOOGLE_CLIENT_ID GOOGLE_CLIENT_SECRET : string)
  : Drive.DriveClient + thrown :=
  match props with
  | None => inr (Error "Missing authentication props")
  | Some props =>
      inl (Drive.new {| Drive.accessToken := accessToken props;
                        Drive.refreshToken := refreshToken props;
                        Drive.clientId := GOOGLE_CLIENT_ID;
                        Drive.clientSecret := GOOGLE_CLIENT_SECRET;
                        Drive.expiresAt := Some (expiresAt props) |})
  end.

(** The calls of a run from [w] to [w']. *)
Definition during (w w' : World) : list Event := drop (length (log w)) (log w').

(** The props of a grant made by [handleCallback], which stores
    [accessToken], [refreshToken] and [expiresAt] and nothing else. *)
Definition stored (p : Handler.Props) : Props :=
  {| accessToken := Handler.accessToken p;
     refreshToken := Handler.refreshToken p;
     expiresAt := Handler.expiresAt p;
     userId := None; googleClientId := None; googleClientSecret := None |}.

End Index.

(** ** More scenarios *)

Module Node.
Import Js Async Http.

(** A host for the examples: the query is written after [?] as it is, and
    an error of the engine has the name of its kind for message. *)
Definition host : Host.t :=
  {| Host.href := λ input params,
       match params with
       | [] => input
       | _ => input +:+ "?" +:+ join "&" (map (λ p, fst p +:+ "=" +:+ snd p) params)
       end;
     Host.message := λ err,
       match err with
       | DriveApiError _ message => message
       | SyntaxError => "SyntaxError"
       | TypeError => "TypeError"
       end |}.

(** A worker environment whose two next state keys differ. *)
Definition twice (first second : json) : Handler.Env :=
  {| Handler.now := 1000000;
     Handler.GOOGLE_CLIENT_ID := "client-id";
     Handler.GOOGLE_CLIENT_SECRET := "client-secret";
     Handler.OAUTH_KV := ∅;
     Handler.uuids := λ n, match n with O => "nonce-1" | _ => "nonce-2" end;
     Handler.drawn := 0;
     Handler.authRequests := [Some first; Some second];
     Handler.tokenEndpoint := []; Handler.userInfoEndpoint := [];
     Handler.grants := [];
     Handler.log := [] |}.

(** The props of a grant that can be refreshed, and the options of the
    callback for it. *)
Definition grant : Index.Props :=
  {| Index.accessToken := "AT1"; Index.refreshToken := "RT1";
     Index.expiresAt := 900000; Index.userId := None;
     Index.googleClientId := Some "client-id";
     Index.googleClientSecret := Some "client-secret" |}.

Definition refreshing : Index.TokenExchangeCallbackOptions :=
  {| Index.grantType := Index.REFRESH_TOKEN; Index.props := Some grant;
     Index.options_userId := "u1" |}.

(** The provider's answer to a refresh, after 40 ms. *)
Definition answer (status : Z) (data : Index.GoogleTokenRefreshResponse)
  : Reply Index.GoogleTokenRefreshResponse :=
  mkReply 40%N (Some (mkResponse status "" "" (Some data))).

Definition renewed : Index.GoogleTokenRefreshResponse :=
  {| Index.access_token := Some "AT2"; Index.expires_in := Some 3600;
     Index.refresh_token := None; Index.error := None;
     Index.error_description := None |}.

Definition provider (replies : list (Reply Index.GoogleTokenRefreshResponse))
  : Index.World :=
  {| Index.now := 1000000; Index.tokenEndpoint := replies; Index.log := [] |}.

End Node.

(** * Properties *)

Section StringFacts.

Lemma sapp_cons c (a b : string) : String c a +:+ b = String c (a +:+ b).
Proof. reflexivity. Qed.

Lemma sapp_nil_l (s : string) : "" +:+ s = s.
Proof. reflexivity. Qed.

Lemma sapp_nil_r (s : string) : s +:+ "" = s.
Proof. induction s as [|c s IH]; [reflexivity|]. by rewrite sapp_cons, IH. Qed.

Lemma sapp_assoc (a b c : string) : (a +:+ b) +:+ c = a +:+ (b +:+ c).
Proof. induction a as [|x a IH]; [reflexivity|]. by rewrite !sapp_cons, IH. Qed.

Lemma slength_app (a b : string) :
  String.length (a +:+ b) = (String.length a + String.length b)%nat.
Proof. induction a as [|x a IH]; [reflexivity|]. rewrite sapp_cons. cbn. by rewrite IH. Qed.

Lemma truthy_nonempty s : Js.truthy s = true ↔ s ≠ "".
Proof. destruct s; cbn; split; congruence. Qed.


End StringFacts.

Section JsonFacts.
Import Js.

(** Induction on JSON values, with the hypothesis for every item of an
    array and every property of an object. *)
Lemma json_induction (P : json → Prop) :
  P JNull → (∀ b, P (JBool b)) → (∀ n, P (JNum n)) → (∀ s, P (JStr s)) →
  (∀ items, Forall P items → P (JArr items)) →
  (∀ props, Forall (λ p, P (snd p)) props → P (JObj props)) →
  ∀ v, P v.
Proof.
  intros Hnull Hbool Hnum Hstr Harr Hobj.
  fix IH 1. intros [| b | n | s | items | props].
  - exact Hnull.
  - apply Hbool.
  - apply Hnum.
  - apply Hstr.
  - apply Harr. induction items as [|x xs IHxs]; constructor; [apply IH | exact IHxs].
  - apply Hobj. induction props as [|[k x] ps IHps]; constructor; [apply IH | exact IHps].
Qed.

(** *** Strings *)

Lemma parseChars_escapeChar c t :
  parseChars (escapeChar c +:+ t) =
    match parseChars t with
    | Some (str, r) => Some (String c str, r)
    | None => None
    end.
Proof. destruct c as [[] [] [] [] [] [] [] []]; reflexivity. Qed.

Lemma parseChars_escapeChars s rest :
  parseChars (escapeChars s +:+ String DQ rest) = Some (s, rest).
Proof.
  induction s as [|c s IH]; [reflexivity|].
  cbn [escapeChars]. by rewrite sapp_assoc, parseChars_escapeChar, IH.
Qed.

Lemma parseChars_quoteJSON s rest :
  ∃ t, quoteJSON s +:+ rest = String DQ t ∧ parseChars t = Some (s, rest).
Proof.
  exists (escapeChars s +:+ String DQ rest). split.
  - unfold quoteJSON. by rewrite sapp_cons, sapp_assoc.
  - apply parseChars_escapeChars.
Qed.

(** *** Numbers *)

Lemma readDigits_stop rest :
  digitHead rest = false → readDigits rest = (Decimal.Nil, rest).
Proof.
  destruct rest as [|c rest]; [reflexivity|]. cbn [digitHead readDigits].
  destruct (digitOf c); [|reflexivity].
  intros Hrest. by apply bool_decide_eq_false in Hrest; destruct Hrest.
Qed.

Lemma readDigits_string_of_uint u rest :
  digitHead rest = false →
  readDigits (NilEmpty.string_of_uint u +:+ rest) = (u, rest).
Proof.
  intros Hrest. induction u; cbn [NilEmpty.string_of_uint];
    rewrite ?sapp_cons, ?sapp_nil_l; [by apply readDigits_stop|..];
    cbn [readDigits]; by rewrite IHu.
Qed.

Lemma unorm_to_uint p : Decimal.unorm (Pos.to_uint p) = Pos.to_uint p.
Proof.
  rewrite <- (DecimalPos.Unsigned.to_of (Pos.to_uint p)).
  by rewrite DecimalPos.Unsigned.of_to.
Qed.

Lemma to_uint_head p :
  ∃ c s, NilEmpty.string_of_uint (Pos.to_uint p) = String c s ∧ is_Some (digitOf c).
Proof.
  pose proof (DecimalPos.Unsigned.to_uint_nonnil p) as Hnil.
  destruct (Pos.to_uint p); [done|..]; cbn [NilEmpty.string_of_uint];
    eexists _, _; (split; [reflexivity|]); by eexists.
Qed.

Lemma parseNumber_decimal n rest :
  digitHead rest = false →
  parseNumber (decimal n +:+ rest) = Some (JNum n, rest).
Proof.
  intros Hrest. unfold decimal, parseNumber.
  destruct n as [|p|p]; cbn [Z.to_int NilEmpty.string_of_int].
  - cbn [NilEmpty.string_of_uint]. rewrite !sapp_cons, sapp_nil_l.
    cbn [Ascii.eqb Bool.eqb readDigits digitOf]. 
    change (digitOf "0") with (Some Decimal.D0).
    rewrite (readDigits_stop _ Hrest). reflexivity.
  - destruct (to_uint_head p) as (c & s & Hs & Hc).
    pose proof (readDigits_string_of_uint (Pos.to_uint p) rest Hrest) as Hread.
    rewrite Hs in *. rewrite sapp_cons in *.
    assert (Ascii.eqb c "-" = false) as ->.
    { destruct Hc as [d Hd]. clear -Hd.
      destruct c as [[] [] [] [] [] [] [] []]; try reflexivity; discriminate. }
    rewrite Hread, unorm_to_uint.
    destruct (Decimal.uint_eq_dec _ _); [|done].
    change (Z.of_uint (Pos.to_uint p)) with (Z.of_int (Z.to_int (Z.pos p))).
    by rewrite DecimalZ.of_to.
  - rewrite sapp_cons. change (Ascii.eqb "-" "-") with true. cbn iota.
    rewrite (readDigits_string_of_uint _ _ Hrest), unorm_to_uint.
    destruct (Decimal.uint_eq_dec _ _); [|done].
    change (- Z.of_uint (Pos.to_uint p)) with (Z.of_int (Z.to_int (Z.neg p))).
    by rewrite DecimalZ.of_to.
Qed.

(** *** Values *)

Lemma decimal_head n :
  ∃ c s, decimal n = String c s ∧ (is_Some (digitOf c) ∨ c = "-"%char).
Proof.
  unfold decimal. destruct n as [|p|p]; cbn [Z.to_int NilEmpty.string_of_int].
  - eexists _, _. split; [reflexivity|]. left. by eexists.
  - destruct (to_uint_head p) as (c & s & -> & Hc). eauto.
  - eauto.
Qed.

Lemma number_opensValue c : is_Some (digitOf c) ∨ c = "-"%char → opensValue c.
Proof.
  intros [[d Hd] | ->]; [|done].
  destruct c as [[] [] [] [] [] [] [] []]; try discriminate; done.
Qed.

Lemma JSON_stringify_head v :
  ∃ c s, JSON_stringify v = String c s ∧ opensValue c.
Proof.
  destruct v as [| [] | n | s | items | props]; cbn [JSON_stringify];
    try (eexists _, _; split; [reflexivity|done]).
  destruct (decimal_head n) as (c & s & -> & Hc).
  eexists _, _. split; [reflexivity|]. by apply number_opensValue.
Qed.

Lemma parseValue_number fuel c t :
  is_Some (digitOf c) ∨ c = "-"%char →
  parseValue (S fuel) (String c t) = parseNumber (String c t).
Proof.
  intros [[d Hd] | ->]; [|reflexivity].
  destruct c as [[] [] [] [] [] [] [] []]; try discriminate; reflexivity.
Qed.

Lemma parseValue_array fuel d t :
  isWs d = false → Ascii.eqb d "]" = false →
  parseValue (S fuel) (String "[" (String d t)) =
    match parseElements (parseValue fuel) fuel (String d t) with
    | Some (items, r) => Some (JArr items, r)
    | None => None
    end.
Proof.
  destruct d as [[] [] [] [] [] [] [] []]; try discriminate; reflexivity.
Qed.

Lemma parseValue_object fuel d t :
  isWs d = false → Ascii.eqb d "}" = false →
  parseValue (S fuel) (String "{" (String d t)) =
    match parseMembers (parseValue fuel) fuel (String d t) with
    | Some (props, r) => Some (JObj props, r)
    | None => None
    end.
Proof.
  destruct d as [[] [] [] [] [] [] [] []]; try discriminate; reflexivity.
Qed.

Lemma join_cons sep x y (ys : list string) :
  join sep (x :: y :: ys) = x +:+ sep +:+ join sep (y :: ys).
Proof. reflexivity. Qed.

Lemma parseElements_join value items n rest :
  items ≠ [] → (length items ≤ n)%nat →
  Forall (λ x, ∀ r, digitHead r = false →
                value (JSON_stringify x +:+ r) = Some (x, r)) items →
  parseElements value n
    (join "," (map JSON_stringify items) +:+ String "]" rest) = Some (items, rest).
Proof.
  intros Hne Hn Hall. revert n Hn.
  induction Hall as [|x xs Hx Hxs IH]; [done|]. intros [|n] Hn; [cbn in Hn; lia|].
  cbn [parseElements]. destruct xs as [|y ys].
  - cbn [map]. change (join "," [JSON_stringify x]) with (JSON_stringify x).
    rewrite Hx by reflexivity. reflexivity.
  - cbn [map]. rewrite join_cons, !sapp_assoc. rewrite Hx by reflexivity.
    change ("," +:+ ?t) with (String ","%char t).
    cbn [mbind option_bind]. 
    change (skipWs (String "," ?t)) with (String ","%char t).
    cbn beta iota. change (Ascii.eqb "," ",") with true. cbn beta iota.
    change (map JSON_stringify (y :: ys)) with (JSON_stringify y :: map JSON_stringify ys) in IH.
    rewrite IH; [reflexivity|done|cbn in *; lia].
Qed.

Lemma parseMembers_step value n k v t :
  value (JSON_stringify v +:+ t) = Some (v, t) →
  parseMembers value (S n) (member (k, v) +:+ t) =
    match skipWs t with
    | EmptyString => None
    | String d r' =>
        if Ascii.eqb d "," then
          match parseMembers value n r' with
          | Some (ps, r'') => Some ((k, v) :: ps, r'')
          | None => None
          end
        else if Ascii.eqb d "}" then Some ([(k, v)], r')
        else None
    end.
Proof.
  intros Hv. unfold member, quoteJSON. cbn [fst snd].
  rewrite !sapp_cons, !sapp_assoc, !sapp_cons, sapp_nil_l.
  cbn [parseMembers]. change (skipWs (String DQ ?t)) with (String DQ t).
  cbn beta iota. change (Ascii.eqb DQ DQ) with true. cbn beta iota.
  rewrite parseChars_escapeChars. cbn [mbind option_bind].
  change (skipWs (String ":" ?t)) with (String ":"%char t).
  cbn beta iota. change (Ascii.eqb ":" ":") with true. cbn beta iota.
  rewrite sapp_nil_l, Hv. cbn [mbind option_bind].
  unfold mbind, option_bind.
  destruct (skipWs t) as [|d r']; [reflexivity|].
  destruct (Ascii.eqb d ","); [|reflexivity].
  by destruct (parseMembers value n r') as [[ps r'']|].
Qed.

Lemma parseMembers_join value props n rest :
  props ≠ [] → (length props ≤ n)%nat →
  Forall (λ p, ∀ r, digitHead r = false →
                value (JSON_stringify (snd p) +:+ r) = Some (snd p, r)) props →
  parseMembers value n (join "," (map member props) +:+ String "}" rest) =
    Some (props, rest).
Proof.
  intros Hne Hn Hall. revert n Hn.
  induction Hall as [|[k v] ps Hp Hps IH]; [done|]. intros [|n] Hn; [cbn in Hn; lia|].
  cbn [snd] in Hp. destruct ps as [|q qs].
  - cbn [map]. change (join "," [member (k, v)]) with (member (k, v)).
    rewrite parseMembers_step by (by apply Hp). reflexivity.
  - cbn [map]. rewrite join_cons, !sapp_assoc.
    rewrite parseMembers_step by (by apply Hp).
    change ("," +:+ ?t) with (String ","%char t).
    change (skipWs (String "," ?t)) with (String ","%char t).
    cbn beta iota. change (Ascii.eqb "," ",") with true. cbn beta iota.
    change (map member (q :: qs)) with (member q :: map member qs) in IH.
    rewrite IH; [reflexivity|done|cbn in *; lia].
Qed.

Lemma members_head p ps t :
  ∃ u, join "," (map member (p :: ps)) +:+ t = String DQ u.
Proof.
  destruct ps as [|q qs]; cbn [map].
  - change (join "," [member p]) with (member p).
    unfold member, quoteJSON. rewrite !sapp_cons. eauto.
  - rewrite join_cons. unfold member at 1. unfold quoteJSON. rewrite !sapp_cons. eauto.
Qed.

Lemma size_pos v : (1 ≤ size v)%nat.
Proof. destruct v; cbn; lia. Qed.

Lemma size_items (items : list json) :
  (length items ≤ foldr (λ x n, size x + n) 0 items)%nat ∧
  Forall (λ x, size x ≤ foldr (λ x n, size x + n) 0 items)%nat items.
Proof.
  induction items as [|x xs [IHl IHa]]; [by split|]. cbn [foldr length]. split.
  - pose proof (size_pos x). lia.
  - constructor; [lia|]. eapply Forall_impl; [exact IHa|]. cbn. intros; lia.
Qed.

Lemma size_props (props : list (string * json)) :
  (length props ≤ foldr (λ p n, size (snd p) + n) 0 props)%nat ∧
  Forall (λ p, size (snd p) ≤ foldr (λ p n, size (snd p) + n) 0 props)%nat props.
Proof.
  induction props as [|x xs [IHl IHa]]; [by split|]. cbn [foldr length]. split.
  - pose proof (size_pos (snd x)). lia.
  - constructor; [lia|]. eapply Forall_impl; [exact IHa|]. cbn. intros; lia.
Qed.

(** The reader gives back a serialised value and what follows it. *)
Lemma parseValue_stringify v :
  ∀ fuel rest, (size v ≤ fuel)%nat → digitHead rest = false →
    parseValue fuel (JSON_stringify v +:+ rest) = Some (v, rest).
Proof.
  induction v as [| b | n | s | items IH | props IH] using json_induction;
    intros [|fuel] rest Hfuel Hrest;
    try (pose proof (size_pos (JArr items)); pose proof (size_pos (JObj props)));
    try (cbn in Hfuel; lia).
  - reflexivity.
  - destruct b; reflexivity.
  - cbn [JSON_stringify]. destruct (decimal_head n) as (c & t & Hd & Hc).
    rewrite Hd, sapp_cons, parseValue_number by done.
    rewrite <- sapp_cons, <- Hd. by apply parseNumber_decimal.
  - cbn [JSON_stringify].
    destruct (parseChars_quoteJSON s rest) as (t & -> & Ht).
    change (parseValue (S fuel) (String DQ t)) with
      (match parseChars t with Some (str, r) => Some (JStr str, r) | None => None end).
    by rewrite Ht.
  - cbn [JSON_stringify size] in *. rewrite !sapp_assoc, sapp_cons, sapp_nil_l.
    change ("]" +:+ rest) with (String "]" rest).
    destruct items as [|x xs]; [reflexivity|].
    destruct (JSON_stringify_head x) as (c & t & Hx & Hws & Hc & _).
    destruct (size_items (x :: xs)) as [Hlen Hsizes].
    assert (parseElements (parseValue fuel) fuel
              (join "," (map JSON_stringify (x :: xs)) +:+ String "]" rest) =
            Some (x :: xs, rest)) as Helems.
    { apply parseElements_join; [done|lia|].
      rewrite Forall_forall in IH, Hsizes. apply Forall_forall. intros y Hy r Hr.
      apply IH; [done| |done]. specialize (Hsizes y Hy). lia. }
    revert Helems. destruct xs as [|y ys]; cbn [map].
    + change (join "," [JSON_stringify x]) with (JSON_stringify x).
      rewrite Hx, sapp_cons. intros Helems. by rewrite parseValue_array, Helems.
    + rewrite join_cons, Hx, !sapp_cons. intros Helems.
      by rewrite parseValue_array, Helems.
  - cbn [JSON_stringify size] in *. rewrite !sapp_assoc, sapp_cons, sapp_nil_l.
    change ("}" +:+ rest) with (String "}" rest).
    destruct props as [|[k x] ps]; [reflexivity|].
    destruct (size_props ((k, x) :: ps)) as [Hlen Hsizes].
    assert (parseMembers (parseValue fuel) fuel
              (join "," (map member ((k, x) :: ps)) +:+ String "}" rest) =
            Some ((k, x) :: ps, rest)) as Hmembers.
    { apply parseMembers_join; [done|lia|].
      rewrite Forall_forall in IH, Hsizes. apply Forall_forall. intros y Hy r Hr.
      apply IH; [done| |done]. specialize (Hsizes y Hy). cbn [snd] in *. lia. }
    fold member. destruct (members_head (k, x) ps (String "}" rest)) as [u Hu].
    rewrite Hu in *.
    by rewrite (parseValue_object fuel DQ), Hmembers by reflexivity.
Qed.

Lemma length_join sep (l : list string) :
  (foldr (λ x n, String.length x + n) 0 l ≤ String.length (join sep l))%nat.
Proof.
  induction l as [|x [|y ys] IH]; [done|cbn; lia|].
  rewrite join_cons, !slength_app. cbn [foldr] in *. lia.
Qed.

Lemma size_le_length v : (size v ≤ String.length (JSON_stringify v))%nat.
Proof.
  induction v as [| b | n | s | items IH | props IH] using json_induction.
  - cbn. lia.
  - destruct b; cbn; lia.
  - cbn [JSON_stringify size]. destruct (decimal_head n) as (c & t & -> & _). cbn. lia.
  - cbn. lia.
  - cbn [JSON_stringify size]. rewrite !slength_app. cbn [String.length].
    pose proof (length_join "," (map JSON_stringify items)) as Hj.
    enough (foldr (λ x n, size x + n) 0 items ≤
            foldr (λ x n, String.length x + n) 0 (map JSON_stringify items))%nat by lia.
    clear Hj. induction IH as [|x xs Hx _ IHxs]; [done|]. cbn [map foldr]. lia.
  - cbn [JSON_stringify size]. rewrite !slength_app. cbn [String.length]. fold member.
    pose proof (length_join "," (map member props)) as Hj.
    enough (foldr (λ p n, size (snd p) + n) 0 props ≤
            foldr (λ x n, String.length x + n) 0 (map member props))%nat by lia.
    clear Hj. induction IH as [|[k x] ps Hx _ IHps]; [done|]. cbn [map foldr snd] in *.
    unfold member at 1. rewrite !slength_app. cbn [snd]. lia.
Qed.

(** [JSON.parse(JSON.stringify(v))] is [v]. *)
Lemma JSON_parse_stringify v : JSON_parse (JSON_stringify v) = Some v.
Proof.
  unfold JSON_parse.
  rewrite <- (sapp_nil_r (JSON_stringify v)) at 2.
  rewrite parseValue_stringify; [reflexivity| |reflexivity].
  pose proof (size_le_length v). lia.
Qed.

Example JSON_stringify_array :
  JSON_stringify (JArr [JNum 1; JNum (-20); JNull; JBool true; JArr []; JObj []]) =
    "[1,-20,null,true,[],{}]".
Proof. reflexivity. Qed.

Example JSON_parse_spaced :
  JSON_parse " [ 1 , -20, null,true , [ ] , { } ] " =
    Some (JArr [JNum 1; JNum (-20); JNull; JBool true; JArr []; JObj []]).
Proof. reflexivity. Qed.

Example JSON_parse_rejects :
  JSON_parse "[1,]" = None ∧ JSON_parse "01" = None ∧ JSON_parse "nul" = None ∧
  JSON_parse "-------gdrive-mcp-boundary" = None.
Proof. repeat split. Qed.

(** *** No line break in a serialised value *)

Lemma noCR_app a b : noCR (a +:+ b) = noCR a && noCR b.
Proof.
  induction a as [|c a IH]; [reflexivity|]. rewrite sapp_cons. cbn [noCR].
  by rewrite IH, andb_assoc.
Qed.

Lemma noCR_join sep (l : list string) :
  noCR sep = true → Forall (λ x, noCR x = true) l → noCR (join sep l) = true.
Proof.
  intros Hsep Hall. induction Hall as [|x xs Hx Hxs IH]; [reflexivity|].
  destruct xs as [|y ys]; [exact Hx|].
  rewrite join_cons, !noCR_app, Hx, Hsep. exact IH.
Qed.

Lemma noCR_escapeChars s : noCR (escapeChars s) = true.
Proof.
  induction s as [|c s IH]; [reflexivity|]. cbn [escapeChars].
  rewrite noCR_app, IH, andb_true_r.
  destruct c as [[] [] [] [] [] [] [] []]; reflexivity.
Qed.

Lemma noCR_quoteJSON s : noCR (quoteJSON s) = true.
Proof. unfold quoteJSON. cbn [noCR]. by rewrite noCR_app, noCR_escapeChars. Qed.

Lemma noCR_decimal n : noCR (decimal n) = true.
Proof.
  assert (∀ u, noCR (NilEmpty.string_of_uint u) = true) as Hu
    by (induction u; cbn; auto).
  unfold decimal. destruct n; cbn [Z.to_int NilEmpty.string_of_int noCR]; auto.
  by rewrite Hu.
Qed.

Lemma noCR_stringify v : noCR (JSON_stringify v) = true.
Proof.
  induction v as [| b | n | s | items IH | props IH] using json_induction.
  - reflexivity.
  - by destruct b.
  - apply noCR_decimal.
  - apply noCR_quoteJSON.
  - cbn [JSON_stringify]. rewrite !noCR_app, noCR_join; [done..|].
    by apply Forall_map.
  - cbn [JSON_stringify]. rewrite !noCR_app, noCR_join; [done..|].
    apply Forall_map. eapply Forall_impl; [exact IH|]. cbn. intros [k x] Hx.
    by rewrite !noCR_app, noCR_quoteJSON, Hx.
Qed.

End JsonFacts.

Section MimeFacts.
Import Js Drive Mime.

Lemma lines_cons_other c s :
  Ascii.eqb c CR = false →
  lines (String c s) =
    match lines s with l :: ls => String c l :: ls | [] => [String c ""] end.
Proof. intros Hc. cbn [lines]. destruct s as [|d s]; [done|]. by rewrite Hc. Qed.

Lemma lines_cons2 c d s :
  lines (String c (String d s)) =
    if Ascii.eqb c CR && Ascii.eqb d LF then "" :: lines s
    else match lines (String d s) with
         | l :: ls => String c l :: ls
         | [] => [String c ""]
         end.
Proof. reflexivity. Qed.

Lemma lines_nonempty s : lines s ≠ [].
Proof.
  enough (∀ n s, (String.length s ≤ n)%nat → lines s ≠ []) by eauto.
  clear s. induction n as [|n IH]; intros [|c s] Hn; cbn [String.length] in Hn;
    try lia; [done..|].
  cbn [lines]. pose proof (IH s ltac:(lia)).
  destruct s as [|d s]; [by destruct (lines "")|].
  destruct (_ && _); [done|]. by destruct (lines (String d s)).
Qed.

(** A text without carriage return is one line. *)
Lemma lines_noCR s : noCR s = true → lines s = [s].
Proof.
  induction s as [|c s IH]; [done|]. cbn [noCR].
  intros [Hc Hs]%andb_true_iff. apply negb_true_iff in Hc.
  by rewrite lines_cons_other, IH.
Qed.

(** A text without CRLF is one line. *)
Lemma lines_single s : includes CRLF s = false → lines s = [s].
Proof.
  enough (∀ n s, (String.length s ≤ n)%nat → includes CRLF s = false → lines s = [s])
    by eauto.
  clear s. induction n as [|n IH]; intros [|c s] Hn; cbn [String.length] in Hn;
    try lia; [done..|].
  cbn [includes lines]. intros [Hp Hs]%orb_false_iff.
  rewrite (IH s) by (done || lia).
  destruct s as [|d s]; [done|].
  destruct (Ascii.eqb c CR && Ascii.eqb d LF) eqn:Hcd; [|done].
  apply andb_true_iff in Hcd as [->%Ascii.eqb_eq ->%Ascii.eqb_eq].
  by destruct s.
Qed.

(** Splitting at a line break. *)
Lemma lines_app a b : lines (a +:+ CRLF +:+ b) = lines a ++ lines b.
Proof.
  enough (∀ n a, (String.length a ≤ n)%nat →
            lines (a +:+ CRLF +:+ b) = lines a ++ lines b) by eauto.
  clear a. induction n as [|n IH]; intros [|c a] Hn; cbn [String.length] in Hn;
    try lia; try reflexivity.
  rewrite sapp_cons. destruct a as [|d a].
  - rewrite sapp_nil_l. cbn [lines]. unfold CRLF at 1. rewrite !sapp_cons, sapp_nil_l.
    change (Ascii.eqb CR LF) with false. rewrite andb_false_r.
    change (lines (String CR (String LF b))) with ("" :: lines b).
    reflexivity.
  - rewrite sapp_cons, !lines_cons2, <- sapp_cons.
    destruct (Ascii.eqb c CR && Ascii.eqb d LF).
    + cbn [String.length] in Hn. by rewrite (IH a) by lia.
    + rewrite (IH (String d a)) by lia.
      pose proof (lines_nonempty (String d a)) as Hne.
      by destruct (lines (String d a)).
Qed.

(** Joining the lines of a text gives it back. *)
Lemma join_lines s : join CRLF (lines s) = s.
Proof.
  enough (∀ n s, (String.length s ≤ n)%nat → join CRLF (lines s) = s) by eauto.
  clear s. induction n as [|n IH]; intros [|c s] Hn; cbn [String.length] in Hn;
    try lia; try reflexivity.
  assert (∀ l ls, join CRLF (String c l :: ls) = String c (join CRLF (l :: ls)))
    as Hcons by (by intros l [|x xs]).
  cbn [lines]. pose proof (IH s ltac:(lia)) as IHs.
  pose proof (lines_nonempty s) as Hne.
  destruct s as [|d s].
  - destruct (lines "") as [|l ls]; [done|]. by rewrite Hcons, IHs.
  - destruct (Ascii.eqb c CR && Ascii.eqb d LF) eqn:Hcd.
    + apply andb_true_iff in Hcd as [->%Ascii.eqb_eq ->%Ascii.eqb_eq].
      cbn [String.length] in Hn. pose proof (IH s ltac:(lia)) as IHs'.
      pose proof (lines_nonempty s) as Hne'.
      destruct (lines s) as [|l ls]; [done|].
      rewrite join_cons, IHs'. reflexivity.
    + destruct (lines (String d s)) as [|l ls]; [done|]. by rewrite Hcons, IHs.
Qed.

Lemma includes_cons_other c s :
  Ascii.eqb c CR = false → includes CRLF (String c s) = includes CRLF s.
Proof.
  intros Hc. cbn [includes String.prefix CRLF].
  destruct (ascii_dec CR c) as [<-|]; [discriminate Hc|reflexivity].
Qed.

Lemma prefix_app a b s : String.prefix (a +:+ b) s = true → String.prefix a s = true.
Proof.
  revert s. induction a as [|c a IH]; intros s; [by destruct s|].
  rewrite sapp_cons. destruct s as [|d s]; [done|]. cbn [String.prefix].
  destruct (ascii_dec c d); [apply IH|done].
Qed.

Lemma isClose_isDelimiter boundary line :
  isDelimiter boundary line = false → isClose boundary line = false.
Proof.
  unfold isDelimiter, isClose. intros Hd.
  destruct (String.prefix ("--" +:+ boundary +:+ "--") line) eqn:Hc; [|done].
  rewrite <- sapp_assoc in Hc. apply prefix_app in Hc. congruence.
Qed.

Lemma decodeParts_collect boundary xs cur rest :
  forallb (λ l, negb (isDelimiter boundary l)) xs = true →
  decodeParts boundary cur (xs ++ rest) = decodeParts boundary (rev xs ++ cur) rest.
Proof.
  revert cur. induction xs as [|x xs IH]; intros cur Hxs; [reflexivity|].
  cbn [forallb] in Hxs. apply andb_true_iff in Hxs as [Hd%negb_true_iff Hxs].
  cbn [app decodeParts rev]. rewrite (isClose_isDelimiter _ _ Hd), Hd, IH by done.
  by rewrite <- app_assoc.
Qed.

Lemma decodeParts_delimiter boundary cur l rest :
  isClose boundary l = false → isDelimiter boundary l = true →
  decodeParts boundary cur (l :: rest) =
    p ← decodePart (rev cur); ps ← decodeParts boundary [] rest; Some (p :: ps).
Proof. intros Hc Hd. cbn [decodeParts]. by rewrite Hc, Hd. Qed.

Lemma decodeParts_close boundary cur l rest :
  isClose boundary l = true →
  decodeParts boundary cur (l :: rest) = p ← decodePart (rev cur); Some [p].
Proof. intros Hc. cbn [decodeParts]. by rewrite Hc. Qed.

Lemma decodePart_one header body :
  header ≠ "" →
  decodePart (header :: "" :: body) =
    Some {| headers := [header]; content := join CRLF body |}.
Proof.
  intros Hne. cbn [decodePart].
  destruct (String.eqb_spec header ""); [done|]. reflexivity.
Qed.

(** A serialised value does not start with two hyphens, so it is no
    delimiter line, whatever the boundary. *)
Lemma stringify_not_dashes v : String.prefix "--" (JSON_stringify v) = false.
Proof.
  assert (∀ c s, is_Some (digitOf c) → String.prefix "-" (String c s) = false) as Hdigit.
  { intros c s [d Hd]. clear -Hd.
    destruct c as [[] [] [] [] [] [] [] []]; try discriminate; reflexivity. }
  destruct v as [| [] | n | s | items | props]; try reflexivity.
  cbn [JSON_stringify]. unfold decimal.
  destruct n as [|p|p]; cbn [Z.to_int NilEmpty.string_of_int]; [reflexivity|..];
    destruct (to_uint_head p) as (c & s & -> & Hc).
  - pose proof (Hdigit c s Hc) as H. cbn [String.prefix] in *.
    destruct (ascii_dec "-" c); [by destruct s|done].
  - change (String.prefix "--" (String "-" (String c s)))
      with (String.prefix "-" (String c s)). by apply Hdigit.
Qed.

Lemma stringify_not_delimiter v boundary :
  isDelimiter boundary (JSON_stringify v) = false.
Proof.
  unfold isDelimiter.
  destruct (String.prefix ("--" +:+ boundary) (JSON_stringify v)) eqn:Hp; [|done].
  apply prefix_app in Hp. by rewrite stringify_not_dashes in Hp.
Qed.

(** C5 (as amended).  For a content type without line break and a content
    none of whose lines starts as a delimiter line does ([--] and the
    boundary), the body [buildMultipart]
    produces decodes, under the boundary its content-type header declares,
    into exactly two parts: the first with the one header
    [Content-Type: application/json; charset=UTF-8] and the serialised
    metadata as content, the second with the header [Content-Type: ] followed
    by the caller's content type and the content as given; and parsing the
    first part's content gives the metadata back. *)
Theorem buildMultipart_roundtrip metadata content contentType :
  includes CRLF contentType = false →
  safeFor "-----gdrive-mcp-boundary" content = true →
  let mp := buildMultipart metadata content contentType in
  boundaryOf (Drive.contentType mp) = Some "-----gdrive-mcp-boundary" ∧
  decode (Drive.contentType mp) (body mp) =
    Some [ {| headers := ["Content-Type: application/json; charset=UTF-8"];
              Mime.content := JSON_stringify metadata |};
           {| headers := ["Content-Type: " +:+ contentType];
              Mime.content := content |} ] ∧
  JSON_parse (JSON_stringify metadata) = Some metadata.
Proof.
  intros Hct Hsafe mp. split; [reflexivity|]. split; [|apply JSON_parse_stringify].
  unfold decode. change (boundaryOf (Drive.contentType mp)) with
    (Some "-----gdrive-mcp-boundary").
  cbn [mbind option_bind]. unfold mp, buildMultipart. cbn [body].
  set (boundary := "-----gdrive-mcp-boundary").
  set (delim := "--" +:+ boundary).
  set (close := "--" +:+ boundary +:+ "--").
  rewrite !join_cons. change (join CRLF [close]) with close.
  rewrite !lines_app.
  rewrite (lines_noCR delim), (lines_noCR close), (lines_noCR ""),
    (lines_noCR "Content-Type: application/json; charset=UTF-8"),
    (lines_noCR (JSON_stringify metadata)) by (reflexivity || apply noCR_stringify).
  rewrite (lines_single ("Content-Type: " +:+ contentType)).
  2: { rewrite !sapp_cons, sapp_nil_l.
       rewrite !includes_cons_other by reflexivity. exact Hct. }
  cbn [app].
  change (isDelimiter boundary delim && negb (isClose boundary delim)) with true.
  cbn beta iota.
  (* the first part *)
  match goal with |- context [decodeParts boundary [] (?a :: ?b :: ?c :: ?r)] =>
    change (a :: b :: c :: r) with ([a; b; c] ++ r) end.
  rewrite (decodeParts_collect boundary
             ["Content-Type: application/json; charset=UTF-8"; "";
              JSON_stringify metadata] []).
  2: { cbn [forallb]. by rewrite stringify_not_delimiter. }
  rewrite decodeParts_delimiter by reflexivity.
  cbn [rev app]. rewrite decodePart_one by done. cbn [mbind option_bind].
  (* the second part *)
  match goal with |- context [decodeParts boundary [] (?a :: ?b :: ?l ++ ?r)] =>
    change (a :: b :: l ++ r) with ((a :: b :: l) ++ r) end.
  rewrite (decodeParts_collect boundary
             (("Content-Type: " +:+ contentType) :: "" :: lines content) [] [close]).
  2: { cbn [forallb].
       change (isDelimiter boundary ("Content-Type: " +:+ contentType)) with false.
       exact Hsafe. }
  rewrite decodeParts_close by reflexivity.
  rewrite app_nil_r, rev_involutive, decodePart_one by done.
  cbn [mbind option_bind]. change (join CRLF [JSON_stringify metadata])
    with (JSON_stringify metadata).
  by rewrite join_lines.
Qed.

End MimeFacts.

Section MimeExamples.
Import Js Drive Mime.

Lemma buildMultipart_roundtrip_witness :
  let metadata := JObj [("name", JStr "a")] in
  let mp := buildMultipart metadata "hello" "text/plain" in
  decode (Drive.contentType mp) (body mp) =
    Some [ {| headers := ["Content-Type: application/json; charset=UTF-8"];
              Mime.content := JSON_stringify metadata |};
           {| headers := ["Content-Type: text/plain"]; Mime.content := "hello" |} ] ∧
  JSON_parse (JSON_stringify metadata) = Some metadata.
Proof.
  cbn zeta.
  pose proof (buildMultipart_roundtrip (JObj [("name", JStr "a")]) "hello" "text/plain"
                eq_refl eq_refl) as H.
  cbn zeta in H. destruct H as (_ & Hdecode & Hparse).
  split; [exact Hdecode | exact Hparse].
Defined.

(** C5 as stated fails: the first part's header carries a charset
    parameter, and a content with a delimiter line in it is cut there by
    the reader: three parts come back, none holding the content. *)
Lemma buildMultipart_roundtrip_counterexample :
  let metadata := JObj [("name", JStr "a")] in
  let content :=
    "x" +:+ CRLF +:+ "-------gdrive-mcp-boundary" +:+ CRLF +:+
    "Content-Type: text/html" +:+ CRLF +:+ CRLF +:+ "boo" in
  let mp := buildMultipart metadata content "text/plain" in
  decode (Drive.contentType mp) (body mp) =
    Some [ {| headers := ["Content-Type: application/json; charset=UTF-8"];
              Mime.content := JSON_stringify metadata |};
           {| headers := ["Content-Type: text/plain"]; Mime.content := "x" |};
           {| headers := ["Content-Type: text/html"]; Mime.content := "boo" |} ] ∧
  content ≠ "x" ∧
  "Content-Type: application/json; charset=UTF-8" ≠ "Content-Type: application/json".
Proof. vm_compute. repeat split; congruence. Qed.

End MimeExamples.

Section DriveFacts.
Import Js Async Http Drive.

Ltac run :=
  unfold request, makeRequest, getAccessToken, this, Date_now, set_currentAccessToken,
    set_tokenExpiry, set_refreshToken, fetchToken, fetchApi, res_json,
    mbind, mret, async_bind, async_ret, Async.bind, Async.ret, Async.throw,
    Async.gets, Async.modify in *; cbn in *.

Ltac events :=
  unfold during; cbn [log]; rewrite <- ?app_assoc;
  rewrite ?drop_app_length, ?drop_all; try reflexivity.

(** [getAccessToken] as one case analysis on the client and the world. *)
Lemma getAccessToken_unfold forceRefresh c w :
  getAccessToken forceRefresh (c, w) =
    if negb forceRefresh && truthy (currentAccessToken c) && (now w <? tokenExpiry c)
    then (Return (currentAccessToken c), (c, w))
    else if negb (truthy (refreshToken (config c)))
    then (Throw (DriveApiError 401 "Access token expired and no refresh token available"),
          (c, w))
    else
      let reply := fst (next (tokenEndpoint w)) in
      let w1 := {| now := now w + Z.of_N (latency reply);
                   tokenEndpoint := snd (next (tokenEndpoint w));
                   remoteApi := remoteApi w;
                   log := log w ++ [TokenExchange (clientId (config c))
                                      (clientSecret (config c))
                                      (refreshToken (config c)) "refresh_token"] |} in
      match response reply with
      | None => (Throw TypeError, (c, w1))
      | Some res =>
          if ok res then
            match body_json res with
            | None => (Throw SyntaxError, (c, w1))
            | Some data =>
                (Return (access_token data),
                 ({| config :=
                       {| accessToken := accessToken (config c);
                          refreshToken :=
                            if truthy_opt (refresh_token data)
                            then default "" (refresh_token data)
                            else refreshToken (config c);
                          clientId := clientId (config c);
                          clientSecret := clientSecret (config c);
                          expiresAt := expiresAt (config c) |};
                     currentAccessToken := access_token data;
                     tokenExpiry := now w1 + (expires_in data - 60) * 1000 |}, w1))
            end
          else if (status res =? 400) && includes "invalid_grant" (body_text res)
          then (Throw (DriveApiError 401
                  ("Google refresh token is invalid or revoked (" +:+ body_text res +:+ ")")),
                (c, w1))
          else (Throw (DriveApiError (status res)
                  ("Token refresh failed: " +:+ body_text res)), (c, w1))
      end.
Proof.
  run. destruct (_ && _ && _); [reflexivity|].
  destruct (truthy (refreshToken (config c))); cbn; [|reflexivity].
  destruct (next (tokenEndpoint w)) as [reply rest]. cbn.
  destruct (response reply) as [res|]; cbn; [|reflexivity].
  destruct (ok res); cbn.
  - destruct (body_json res) as [data|]; cbn; [|reflexivity].
    destruct (truthy_opt (refresh_token data)); cbn; [reflexivity|].
    destruct c as [[] ? ?]; reflexivity.
  - destruct (_ && _); reflexivity.
Qed.

Lemma getAccessToken_frame forceRefresh c w r c' w' :
  getAccessToken forceRefresh (c, w) = (r, (c', w')) →
  remoteApi w' = remoteApi w ∧
  log w' = log w ++ during w w' ∧
  (during w w' = [] ∨
   during w w' = [TokenExchange (clientId (config c)) (clientSecret (config c))
                    (refreshToken (config c)) "refresh_token"]).
Proof.
  rewrite getAccessToken_unfold. cbn zeta.
  repeat case_match; intros [= <- <- <-]; cbn; split; try reflexivity;
    (split; [events; by rewrite ?app_nil_r|]);
    first [ left; events; fail | right; events ].
Qed.


(** A forced refresh that the provider grants. *)
Lemma getAccessToken_forced_granted c w reply rest res data :
  refreshToken (config c) ≠ "" →
  tokenEndpoint w = reply :: rest → response reply = Some res →
  ok res = true → body_json res = Some data →
  ∃ c' w', getAccessToken true (c, w) = (Return (access_token data), (c', w')) ∧
           remoteApi w' = remoteApi w ∧
           during w w' = [TokenExchange (clientId (config c)) (clientSecret (config c))
                            (refreshToken (config c)) "refresh_token"].
Proof.
  intros Hrt Hw Hres Hok Hdata. rewrite getAccessToken_unfold. cbn.
  apply truthy_nonempty in Hrt. rewrite Hrt, Hw. cbn. rewrite Hres, Hok, Hdata.
  eexists _, _. split; [reflexivity|]. split; [reflexivity|]. events.
Qed.

(** [request] once the first token is in hand: one call, and on a 401 a
    forced refresh followed by a second call. *)
Lemma request_unfold url options c w tok c0 w0 :
  getAccessToken false (c, w) = (Return tok, (c0, w0)) →
  request url options (c, w) =
    let reply1 := fst (next (remoteApi w0)) in
    let w1 := {| now := now w0 + Z.of_N (latency reply1);
                 tokenEndpoint := tokenEndpoint w0;
                 remoteApi := snd (next (remoteApi w0));
                 log := log w0 ++ [RemoteCall url options ("Bearer " +:+ tok)] |} in
    match response reply1 with
    | None => (Throw TypeError, (c0, w1))
    | Some res1 =>
        if status res1 =? 401 then
          match getAccessToken true (c0, w1) with
          | (Throw e, s2) => (Throw e, s2)
          | (Return tok', (c2, w2)) =>
              let reply2 := fst (next (remoteApi w2)) in
              let w3 := {| now := now w2 + Z.of_N (latency reply2);
                           tokenEndpoint := tokenEndpoint w2;
                           remoteApi := snd (next (remoteApi w2));
                           log := log w2 ++
                                  [RemoteCall url options ("Bearer " +:+ tok')] |} in
              match response reply2 with
              | None => (Throw TypeError, (c2, w3))
              | Some res2 =>
                  if ok res2 then (Return res2, (c2, w3))
                  else (Throw (DriveApiError (status res2) (errorMessage res2)), (c2, w3))
              end
          end
        else if ok res1 then (Return res1, (c0, w1))
        else (Throw (DriveApiError (status res1) (errorMessage res1)), (c0, w1))
    end.
Proof.
  intros Htok. unfold request at 1.
  unfold mbind, async_bind, Async.bind at 1. rewrite Htok.
  unfold makeRequest, fetchApi, mbind, mret, async_bind, async_ret, Async.bind,
    Async.ret, Async.throw. cbn zeta.
  destruct (next (remoteApi w0)) as [reply1 rest1]. cbn [fst snd].
  destruct (response reply1) as [res1|]; [|reflexivity].
  destruct (status res1 =? 401).
  - destruct (getAccessToken true _) as [[tok'|e] [c2 w2]]; [|reflexivity].
    destruct (next (remoteApi w2)) as [reply2 rest2]. cbn [fst snd].
    destruct (response reply2) as [res2|]; [|reflexivity].
    destruct (ok res2); reflexivity.
  - destruct (ok res1); reflexivity.
Qed.


(** C2.  When the stored expiry has passed ([tokenExpiry <= now]) and the
    refresh token is not empty, a non-forced [getAccessToken] makes exactly
    one exchange with the token endpoint, whatever the endpoint answers; when
    the answer is a 2xx response with body [data], the call returns
    [data.access_token] and the new expiry is the clock at that moment plus
    [(expires_in - 60) * 1000] milliseconds, that is [expires_in] seconds
    less the 60 second margin.  The clock at that moment is the time of the
    call plus the time the exchange took. *)
Theorem getAccessToken_expired_refreshes c w :
  tokenExpiry c <= now w → refreshToken (config c) ≠ "" →
  ∀ r c' w', getAccessToken false (c, w) = (r, (c', w')) →
    refreshExchanges (during w w') = 1%nat ∧
    ∀ reply rest res data,
      tokenEndpoint w = reply :: rest → response reply = Some res →
      ok res = true → body_json res = Some data →
      r = Return (access_token data) ∧
      currentAccessToken c' = access_token data ∧
      now w' = now w + Z.of_N (latency reply) ∧
      tokenExpiry c' = now w' + (expires_in data - 60) * 1000.
Proof.
  intros Hexp Hrt r c' w' Hrun. rewrite getAccessToken_unfold in Hrun.
  apply Z.ltb_ge in Hexp. rewrite Hexp, andb_false_r in Hrun.
  apply truthy_nonempty in Hrt. rewrite Hrt in Hrun. cbn [negb] in Hrun.
  cbn zeta in Hrun. split.
  - repeat case_match; injection Hrun as <- <- <-; events.
  - intros reply rest res data Hw Hres Hok Hdata.
    rewrite Hw in Hrun. cbn [next fst snd] in Hrun.
    rewrite Hres, Hok, Hdata in Hrun. injection Hrun as <- <- <-. cbn. auto.
Qed.

(** C3 (as amended).  With a non-empty access token and [now < tokenExpiry],
    a non-forced [getAccessToken] returns the stored access token and leaves
    the client and the world as they were: no network call is made and
    neither token nor expiry changes. *)
Theorem getAccessToken_fast_path c w r c' w' :
  currentAccessToken c ≠ "" → now w < tokenExpiry c →
  getAccessToken false (c, w) = (r, (c', w')) →
  r = Return (currentAccessToken c) ∧ c' = c ∧ w' = w ∧ during w w' = [].
Proof.
  intros Hne Hlt. rewrite getAccessToken_unfold.
  apply truthy_nonempty in Hne. apply Z.ltb_lt in Hlt.
  rewrite Hne, Hlt. intros [= <- <- <-]. repeat split. events.
Qed.

(** C8 (as amended).  With an empty access token a non-forced
    [getAccessToken] never takes the fast path, whatever the expiry: with a
    non-empty refresh token it makes exactly one refresh exchange; with an
    empty refresh token it fails with the no-refresh-token error and
    contacts nobody; and whenever it returns a token, it has made one
    exchange. *)
Theorem getAccessToken_empty_access_token c w r c' w' :
  currentAccessToken c = "" →
  getAccessToken false (c, w) = (r, (c', w')) →
  (refreshToken (config c) ≠ "" → refreshExchanges (during w w') = 1%nat) ∧
  (refreshToken (config c) = "" →
     r = Throw ErrNoRefreshToken ∧ c' = c ∧ w' = w) ∧
  (∀ tok, r = Return tok → refreshExchanges (during w w') = 1%nat).
Proof.
  intros Hempty Hrun. rewrite getAccessToken_unfold in Hrun.
  rewrite Hempty in *. cbn in Hrun.
  split; [|split].
  - intros Hrt. apply truthy_nonempty in Hrt. rewrite Hrt in Hrun. cbn in Hrun.
    repeat case_match; injection Hrun as <- <- <-; events.
  - intros Hrt. rewrite Hrt in Hrun. cbn in Hrun. by injection Hrun as <- <- <-.
  - intros tok Hr. subst r. destruct (truthy (refreshToken (config c))); cbn in Hrun.
    + repeat case_match; try discriminate; injection Hrun as _ <- <-; events.
    + discriminate.
Qed.

(** C4 (as amended).  A refresh attempt with an empty refresh token fails
    with [ErrNoRefreshToken] and leaves client and world untouched.  When the
    token endpoint answers an attempt with a response that is not 2xx, the
    client is left unchanged and the call fails with [ErrCredentialRevoked]
    exactly when the status is 400 and the body contains [invalid_grant],
    and with [ErrRefreshFailed], carrying the response's status, for every
    other status or body. *)
Theorem getAccessToken_refresh_failures forceRefresh c w r c' w' :
  getAccessToken forceRefresh (c, w) = (r, (c', w')) →
  (refreshToken (config c) = "" →
   forceRefresh = true ∨ currentAccessToken c = "" ∨ tokenExpiry c <= now w →
     r = Throw ErrNoRefreshToken ∧ c' = c ∧ w' = w) ∧
  (∀ reply rest res,
     during w w' ≠ [] → tokenEndpoint w = reply :: rest →
     response reply = Some res → ok res = false →
     c' = c ∧
     (status res = 400 → includes "invalid_grant" (body_text res) = true →
        r = Throw (ErrCredentialRevoked (body_text res))) ∧
     (status res ≠ 400 ∨ includes "invalid_grant" (body_text res) = false →
        r = Throw (ErrRefreshFailed (status res) (body_text res)))).
Proof.
  intros Hrun. rewrite getAccessToken_unfold in Hrun. split.
  - intros Hrt Hslow.
    assert (negb forceRefresh && truthy (currentAccessToken c) &&
            (now w <? tokenExpiry c) = false) as Hfast.
    { destruct Hslow as [-> | [-> | Hexp]]; [reflexivity| |].
      - by rewrite andb_false_r.
      - apply Z.ltb_ge in Hexp. by rewrite Hexp, andb_false_r. }
    rewrite Hfast, Hrt in Hrun. cbn in Hrun. by injection Hrun as <- <- <-.
  - intros reply rest res Hev Hw Hres Hok.
    destruct (_ && _ && _).
    { injection Hrun as <- <- <-. exfalso. apply Hev. events. }
    destruct (negb _).
    { injection Hrun as <- <- <-. exfalso. apply Hev. events. }
    cbn zeta in Hrun. rewrite Hw in Hrun. cbn [next fst snd] in Hrun.
    rewrite Hres, Hok in Hrun. split; [|split].
    + destruct (_ && _); by injection Hrun as <- <- <-.
    + intros H400 Hinc. apply Z.eqb_eq in H400. rewrite H400, Hinc in Hrun.
      by injection Hrun as <- _ _.
    + intros Hother.
      assert ((status res =? 400) && includes "invalid_grant" (body_text res) = false)
        as Hc.
      { destruct Hother as [Hne | ->]; [|by rewrite andb_false_r].
        apply Z.eqb_neq in Hne. by rewrite Hne. }
      rewrite Hc in Hrun. by injection Hrun as <- _ _.
Qed.

(** C7 (as amended).  After a granted refresh exchange the access token is
    the one of the response and the client identity is unchanged; when the
    response has no [refresh_token] or an empty one, the refresh token is
    the prior one and the whole configuration is as it was (only the access
    token and the expiry have changed); when it has a non-empty one, the
    refresh token is the value of the response. *)
Theorem getAccessToken_refresh_token_rotation forceRefresh c w r c' w' reply rest res data :
  getAccessToken forceRefresh (c, w) = (r, (c', w')) →
  during w w' ≠ [] →
  tokenEndpoint w = reply :: rest → response reply = Some res →
  ok res = true → body_json res = Some data →
  currentAccessToken c' = access_token data ∧
  clientId (config c') = clientId (config c) ∧
  clientSecret (config c') = clientSecret (config c) ∧
  (refresh_token data = None ∨ refresh_token data = Some "" →
     refreshToken (config c') = refreshToken (config c) ∧ config c' = config c) ∧
  (∀ rotated, refresh_token data = Some rotated → rotated ≠ "" →
     refreshToken (config c') = rotated).
Proof.
  intros Hrun Hev Hw Hres Hok Hdata. rewrite getAccessToken_unfold in Hrun.
  destruct (_ && _ && _).
  { injection Hrun as <- <- <-. exfalso. apply Hev. events. }
  destruct (negb _).
  { injection Hrun as <- <- <-. exfalso. apply Hev. events. }
  cbn zeta in Hrun. rewrite Hw in Hrun. cbn [next fst snd] in Hrun.
  rewrite Hres, Hok, Hdata in Hrun. injection Hrun as <- <- <-. cbn.
  split; [reflexivity|]. split; [by destruct (refresh_token data) as [[]|]|].
  split; [by destruct (refresh_token data) as [[]|]|]. split.
  - intros [-> | ->]; cbn; by destruct (config c).
  - intros rotated -> Hne. apply truthy_nonempty in Hne. cbn. by rewrite Hne.
Qed.



End DriveFacts.

Section DriveExamples.
Import Js Async Http Drive Scenario.

Lemma getAccessToken_fast_path_witness :
  let c := client "AT1" "RT1" 2000000 in
  let w := world [granted AT2] [] in
  getAccessToken false (c, w) = (Return "AT1", (c, w)) ∧ during w w = [].
Proof.
  cbn zeta.
  destruct (getAccessToken_fast_path (client "AT1" "RT1" 2000000)
              (world [granted AT2] []) _ _ _
              ltac:(discriminate) ltac:(reflexivity) eq_refl) as (_ & _ & _ & Hnone).
  split; [reflexivity | exact Hnone].
Defined.

(** C3 as stated fails: with an empty access token and a future expiry
    the call goes to the token endpoint and returns another token. *)
Lemma getAccessToken_fast_path_counterexample :
  let c := client "" "RT1" 2000000 in
  let w := world [granted AT2] [] in
  let run := getAccessToken false (c, w) in
  (now w <? tokenExpiry c) = true ∧
  fst run = Return "AT2" ∧
  refreshExchanges (during w (snd (snd run))) = 1%nat ∧
  currentAccessToken (fst (snd run)) = "AT2".
Proof. vm_compute. repeat split. Qed.

Lemma getAccessToken_expired_refreshes_witness :
  let c := client "AT1" "RT1" 900000 in
  let w := world [granted AT2] [] in
  let run := getAccessToken false (c, w) in
  refreshExchanges (during w (snd (snd run))) = 1%nat ∧
  fst run = Return "AT2" ∧
  tokenExpiry (fst (snd run)) = 1000040 + (3600 - 60) * 1000.
Proof.
  cbn zeta.
  destruct (getAccessToken_expired_refreshes (client "AT1" "RT1" 900000)
              (world [granted AT2] []) ltac:(vm_compute; discriminate) ltac:(discriminate)
              _ _ _ eq_refl) as [Hone Hgranted].
  destruct (Hgranted _ _ _ _ eq_refl eq_refl eq_refl eq_refl) as (Hr & _ & Hnow & Hexp).
  split; [exact Hone|]. split; [exact Hr|]. exact Hexp.
Defined.



(** C4 as stated fails: a 403 whose body names [invalid_grant] is reported
    as a failed refresh, not as a revoked credential. *)
Lemma getAccessToken_refresh_failures_counterexample :
  let c := client "AT1" "RT1" 900000 in
  let text := "error: invalid_grant (Token has been expired or revoked.)" in
  let w := world [refused 403 text] [] in
  let run := getAccessToken false (c, w) in
  includes "invalid_grant" text = true ∧
  fst run = Throw (ErrRefreshFailed 403 text) ∧
  fst run ≠ Throw (ErrCredentialRevoked text).
Proof. vm_compute. repeat split. discriminate. Qed.

Lemma getAccessToken_refresh_failures_witness :
  let c := client "AT1" "RT1" 900000 in
  let text := "error: invalid_grant (Token has been expired or revoked.)" in
  fst (getAccessToken false (c, world [refused 400 text] [])) =
    Throw (ErrCredentialRevoked text) ∧
  fst (getAccessToken false (c, world [refused 500 "unavailable"] [])) =
    Throw (ErrRefreshFailed 500 "unavailable") ∧
  fst (getAccessToken true (client "AT1" "" 2000000, world [granted AT2] [])) =
    Throw ErrNoRefreshToken.
Proof.
  cbn zeta. split; [|split].
  - pose proof (getAccessToken_refresh_failures false (client "AT1" "RT1" 900000)
                  (world [refused 400 "error: invalid_grant (Token has been expired or revoked.)"] [])
                  _ _ _ eq_refl) as [_ Hfail].
    pose proof (Hfail _ _ _ ltac:(vm_compute; discriminate) eq_refl eq_refl eq_refl)
      as (_ & Hrevoked & _).
    exact (Hrevoked eq_refl ltac:(vm_compute; reflexivity)).
  - pose proof (getAccessToken_refresh_failures false (client "AT1" "RT1" 900000)
                  (world [refused 500 "unavailable"] []) _ _ _ eq_refl) as [_ Hfail].
    pose proof (Hfail _ _ _ ltac:(vm_compute; discriminate) eq_refl eq_refl eq_refl)
      as (_ & _ & Hfailed).
    exact (Hfailed ltac:(left; vm_compute; lia)).
  - pose proof (getAccessToken_refresh_failures true (client "AT1" "" 2000000)
                  (world [granted AT2] []) _ _ _ eq_refl) as [Hnone _].
    pose proof (Hnone eq_refl (or_introl eq_refl)) as (Hr & _ & _).
    exact Hr.
Defined.

(** C7 as stated fails: a response that includes an empty [refresh_token]
    leaves the prior refresh token in place. *)
Lemma getAccessToken_refresh_token_rotation_counterexample :
  let c := client "AT1" "RT1" 900000 in
  let data := {| access_token := "AT2"; expires_in := 3600; refresh_token := Some "" |} in
  let w := world [granted data] [] in
  let run := getAccessToken false (c, w) in
  fst run = Return "AT2" ∧
  refreshToken (config (fst (snd run))) = "RT1" ∧
  Some (refreshToken (config (fst (snd run)))) ≠ refresh_token data.
Proof. vm_compute. repeat split. discriminate. Qed.

Lemma getAccessToken_refresh_token_rotation_witness :
  let c := client "AT1" "RT1" 900000 in
  let rotating := {| access_token := "AT2"; expires_in := 3600;
                     refresh_token := Some "RT2" |} in
  refreshToken (config (fst (snd (getAccessToken false (c, world [granted AT2] []))))) = "RT1" ∧
  refreshToken (config (fst (snd (getAccessToken false (c, world [granted rotating] []))))) = "RT2".
Proof.
  cbn zeta. split.
  - destruct (getAccessToken_refresh_token_rotation false (client "AT1" "RT1" 900000)
                (world [granted AT2] []) _ _ _ _ _ _ _
                eq_refl ltac:(discriminate) eq_refl eq_refl eq_refl eq_refl)
      as (_ & _ & _ & Hkept & _).
    exact (proj1 (Hkept (or_introl eq_refl))).
  - destruct (getAccessToken_refresh_token_rotation false (client "AT1" "RT1" 900000)
                (world [granted {| access_token := "AT2"; expires_in := 3600;
                                   refresh_token := Some "RT2" |}] []) _ _ _ _ _ _ _
                eq_refl ltac:(discriminate) eq_refl eq_refl eq_refl eq_refl)
      as (_ & _ & _ & _ & Hrotated).
    exact (Hrotated "RT2" eq_refl ltac:(discriminate)).
Defined.

(** C8 as stated fails: with an empty access token and an empty refresh
    token the call fails before any exchange. *)
Lemma getAccessToken_empty_access_token_counterexample :
  let c := client "" "" 2000000 in
  let w := world [granted AT2] [] in
  let run := getAccessToken false (c, w) in
  currentAccessToken c = "" ∧
  refreshExchanges (during w (snd (snd run))) = 0%nat ∧
  fst run = Throw ErrNoRefreshToken.
Proof. vm_compute. repeat split. Qed.

Lemma getAccessToken_empty_access_token_witness :
  let c := client "" "RT1" 2000000 in
  let w := world [granted AT2] [] in
  (now w <? tokenExpiry c) = true ∧
  refreshExchanges (during w (snd (snd (getAccessToken false (c, w))))) = 1%nat.
Proof.
  cbn zeta. split; [reflexivity|].
  destruct (getAccessToken_empty_access_token (client "" "RT1" 2000000)
              (world [granted AT2] []) _ _ _ eq_refl eq_refl) as (Hone & _ & _).
  exact (Hone ltac:(discriminate)).
Defined.



End DriveExamples.

Section HandlerFacts.
Import Js Async Http Handler.

Lemma handleCallback_error request env :
  truthy_opt (searchParams_get "error" (searchParams request)) = true →
  handleCallback request env =
    (Return (ErrProviderDenied
       (default (default "" (searchParams_get "error" (searchParams request)))
                (searchParams_get "error_description" (searchParams request)))), env).
Proof. intros H. unfold handleCallback. rewrite H. reflexivity. Qed.

Lemma handleCallback_missing request env :
  truthy_opt (searchParams_get "error" (searchParams request)) = false →
  truthy_opt (searchParams_get "code" (searchParams request)) = false ∨
  truthy_opt (searchParams_get "state" (searchParams request)) = false →
  handleCallback request env =
    (Return (Respond "Missing code or state parameter" 400), env).
Proof.
  intros He Hm. unfold handleCallback. rewrite He.
  destruct Hm as [-> | ->]; cbn; [reflexivity|].
  by rewrite orb_true_r.
Qed.

Lemma handleCallback_absent request stateKey env :
  wellFormed request = true →
  searchParams_get "state" (searchParams request) = Some stateKey →
  stateKey ≠ "" →
  truthy_opt (kv_lookup (stateKeyOf stateKey) env) = false →
  handleCallback request env = (Return ErrInvalidOrExpiredState, env).
Proof.
  unfold wellFormed. intros [He Hc]%andb_true_iff Hs Hne Habs.
  apply negb_true_iff in He.
  apply truthy_nonempty in Hne.
  unfold handleCallback. rewrite He, Hc, Hs.
  change (default "" (Some stateKey)) with stateKey.
  cbn [truthy_opt negb orb]. rewrite Hne. cbn [negb orb].
  unfold mbind at 1, async_bind at 1, Async.bind at 1, kv_get at 1, gets at 1.
  rewrite Habs. reflexivity.
Qed.

Lemma stable_ret {S A T} (f : S → T) (a : A) : stable f (mret a : Async.t S A).
Proof. intros s. reflexivity. Qed.

Lemma stable_throw {S A T} (f : S → T) e : stable f (throw e : Async.t S A).
Proof. intros s. reflexivity. Qed.

Lemma stable_gets {S A T} (f : S → T) (g : S → A) : stable f (gets g).
Proof. intros s. reflexivity. Qed.

Lemma stable_bind {S A B T} (f : S → T) (m : Async.t S A) (k : A → Async.t S B) :
  stable f m → (∀ a, stable f (k a)) → stable f (m ≫= k).
Proof.
  intros Hm Hk s. unfold mbind, async_bind, Async.bind.
  specialize (Hm s). destruct (m s) as [[a|e] s']; cbn in *.
  - by rewrite Hk.
  - done.
Qed.

Lemma stable_if {S A T} (f : S → T) (b : bool) (m1 m2 : Async.t S A) :
  stable f m1 → stable f m2 → stable f (if b then m1 else m2).
Proof. by destruct b. Qed.

Lemma stable_res_json {S J T} (f : S → T) (res : Response J) :
  stable f (res_json res : Async.t S J).
Proof. intros s. unfold res_json. by destruct (body_json res). Qed.

Lemma stable_parse {T} (f : Env → T) stored : stable f (parse stored).
Proof. intros s. unfold parse. by destruct (JSON_parse stored). Qed.

Lemma stable_scopeOf {T} (f : Env → T) oauthReq : stable f (scopeOf oauthReq).
Proof. intros s. unfold scopeOf. by destruct oauthReq. Qed.

Lemma fetchToken_kv code cid secret uri grant : stable OAUTH_KV (fetchToken code cid secret uri grant).
Proof.
  intros e. unfold fetchToken.
  destruct (next (tokenEndpoint e)) as [reply rest].
  by destruct (response reply).
Qed.

Lemma fetchUserInfo_kv authorization : stable OAUTH_KV (fetchUserInfo authorization).
Proof.
  intros e. unfold fetchUserInfo.
  destruct (next (userInfoEndpoint e)) as [reply rest].
  by destruct (response reply).
Qed.

Lemma completeAuthorization_kv options : stable OAUTH_KV (completeAuthorization options).
Proof. intros e. unfold completeAuthorization. by destruct (grants e) as [|[]]. Qed.

Ltac stable_step :=
  first
    [ apply stable_ret | apply stable_throw | apply stable_gets
    | apply stable_res_json | apply stable_parse | apply stable_scopeOf
    | apply fetchToken_kv | apply fetchUserInfo_kv | apply completeAuthorization_kv
    | apply stable_if
    | apply stable_bind; [|intros ?] ].

Lemma handleCallback_found request stateKey env :
  wellFormed request = true →
  searchParams_get "state" (searchParams request) = Some stateKey →
  stateKey ≠ "" →
  truthy_opt (kv_lookup (stateKeyOf stateKey) env) = true →
  OAUTH_KV (snd (handleCallback request env)) =
    delete (stateKeyOf stateKey) (OAUTH_KV env).
Proof.
  unfold wellFormed. intros [He Hc]%andb_true_iff Hs Hne Hfound.
  apply negb_true_iff in He. apply truthy_nonempty in Hne.
  unfold handleCallback. rewrite He, Hc, Hs.
  change (default "" (Some stateKey)) with stateKey.
  cbn [truthy_opt negb orb]. rewrite Hne. cbn [negb orb].
  unfold mbind at 1, async_bind at 1, Async.bind at 1, kv_get at 1, gets at 1.
  rewrite Hfound. cbn [negb].
  unfold mbind at 1, async_bind at 1, Async.bind at 1, kv_delete at 1, modify at 1.
  match goal with |- OAUTH_KV (snd (?m ?s)) = ?rhs =>
    assert (Hst : stable OAUTH_KV m); [|rewrite (Hst s); reflexivity] end.
  repeat stable_step.
Qed.

Lemma during_refl (env : Env) : during env env = [].
Proof. unfold during. apply drop_all. Qed.

(** A run of [handleCallback] either leaves the environment as it was and
    does not succeed, or has found the state of a well-formed callback. *)
Lemma handleCallback_cases request env :
  (snd (handleCallback request env) = env ∧
   succeeded (handleCallback request env) = false) ∨
  (∃ stateKey,
     wellFormed request = true ∧
     searchParams_get "state" (searchParams request) = Some stateKey ∧
     stateKey ≠ "" ∧
     truthy_opt (kv_lookup (stateKeyOf stateKey) env) = true).
Proof.
  destruct (truthy_opt (searchParams_get "error" (searchParams request))) eqn:He.
  { left. by rewrite handleCallback_error. }
  destruct (truthy_opt (searchParams_get "code" (searchParams request))) eqn:Hc.
  2: { left. rewrite handleCallback_missing; auto. }
  destruct (searchParams_get "state" (searchParams request)) as [stateKey|] eqn:Hs.
  2: { left. rewrite handleCallback_missing; auto. right. by rewrite Hs. }
  destruct (truthy stateKey) eqn:Hk.
  2: { left. rewrite handleCallback_missing; auto. right. by rewrite Hs. }
  assert (wellFormed request = true) as Hwf by (unfold wellFormed; by rewrite He, Hc).
  apply truthy_nonempty in Hk.
  destruct (truthy_opt (kv_lookup (stateKeyOf stateKey) env)) eqn:Hl.
  - right. by exists stateKey.
  - left. by rewrite (handleCallback_absent _ _ _ Hwf Hs Hk Hl).
Qed.

Lemma kv_lookup_deleted key (env env' : Env) :
  OAUTH_KV env' = delete key (OAUTH_KV env) → kv_lookup key env' = None.
Proof. intros H. unfold kv_lookup. by rewrite H, lookup_delete_eq. Qed.



(** C9.  When [handleCallback] has called the token endpoint and the
    handshake did not succeed (the exchange or anything after it failed),
    the pending state has been deleted all the same, and the same callback
    tried again, at any later time with the store as it was left, is
    answered with [ErrInvalidOrExpiredState] and makes no call. *)
Theorem handleCallback_failure_consumes_state request stateKey env :
  searchParams_get "state" (searchParams request) = Some stateKey →
  let run := handleCallback request env in
  tokenEndpointCalls (during env (snd run)) = 1%nat →
  succeeded run = false →
  OAUTH_KV (snd run) = delete (stateKeyOf stateKey) (OAUTH_KV env) ∧
  ∀ env2, OAUTH_KV env2 = OAUTH_KV (snd run) →
    handleCallback request env2 = (Return ErrInvalidOrExpiredState, env2).
Proof.
  intros Hs run Hcalled _.
  destruct (handleCallback_cases request env) as [[Henv _]|Hfound].
  { subst run. rewrite Henv, during_refl in Hcalled. discriminate. }
  destruct Hfound as (k & Hwf & Hk & Hne & Hl).
  assert (k = stateKey) as -> by congruence.
  assert (OAUTH_KV (snd run) = delete (stateKeyOf stateKey) (OAUTH_KV env)) as Hdel
    by (by apply handleCallback_found).
  split; [done|].
  intros env2 Hkv. apply (handleCallback_absent _ stateKey); try done.
  rewrite (kv_lookup_deleted (stateKeyOf stateKey) env env2); [done|congruence].
Qed.

End HandlerFacts.

Section HandlerExamples.
Import Js Async Http Handler Handshake.



Lemma handleCallback_failure_consumes_state_witness :
  let env := begun [unavailable; tokens] [user] in
  let run := handleCallback callback env in
  fst run = Return (Respond "Google token exchange failed: backend error" 502) ∧
  handleCallback callback (snd run) = (Return ErrInvalidOrExpiredState, snd run).
Proof.
  cbn zeta.
  pose proof (handleCallback_failure_consumes_state callback "nonce-1"
                (begun [unavailable; tokens] [user]) eq_refl) as H.
  cbn zeta in H.
  pose proof (H ltac:(vm_compute; reflexivity) ltac:(vm_compute; reflexivity))
    as [_ Hretry].
  split; [vm_compute; reflexivity|].
  exact (Hretry _ eq_refl).
Defined.

(** The handshake of the specification's scenario, end to end: the state
    issued by [handleAuthorize] is redeemed by the callback, and the grant is
    finalised for subject [u1] with the credential pair the provider
    issued, expiring [expires_in] seconds after the time of the call. *)
Example handshake_end_to_end :
  let env := begun [tokens] [user] in
  let run := handleCallback callback env in
  fst (handleAuthorize authorize (fresh [tokens] [user])) =
    Return (Redirect (WithQuery GOOGLE_AUTH_URL
      [("client_id", "client-id");
       ("redirect_uri", "https://mcp.example/callback");
       ("response_type", "code");
       ("scope", SCOPES);
       ("access_type", "offline");
       ("prompt", "consent");
       ("state", "nonce-1")]) 302) ∧
  kv_lookup (stateKeyOf "nonce-1") env = Some (JSON_stringify oauthReq) ∧
  fst run = Return (Redirect (Href "https://client.example/done") 302) ∧
  during env (snd run) =
    [CodeExchange "abc123" "client-id" "client-secret"
       "https://mcp.example/callback" "authorization_code";
     UserInfoCall "Bearer AT1";
     CompleteAuthorization
       {| request := oauthReq; userId := "u1"; metadata := ("a@b.com", "A");
          scope := Some (JArr [JStr "drive"]);
          props := {| accessToken := "AT1"; refreshToken := "RT1";
                      expiresAt := 1000070 + 3600 * 1000 |} |}] ∧
  kv_lookup (stateKeyOf "nonce-1") (snd run) = None.
Proof. vm_compute. repeat split. Qed.

End HandlerExamples.

(** * Further properties *)

Section DriveMore.
Import Js Async Http Drive DriveLog.

Lemma remoteCalls_app a b : remoteCalls (a ++ b) = (remoteCalls a + remoteCalls b)%nat.
Proof. unfold remoteCalls. by rewrite filter_app, length_app. Qed.

Lemma refreshExchanges_app a b :
  refreshExchanges (a ++ b) = (refreshExchanges a + refreshExchanges b)%nat.
Proof. unfold refreshExchanges. by rewrite filter_app, length_app. Qed.

Lemma within_app url options n m n' m' evs evs' :
  within url options n m evs → within url options n' m' evs' →
  within url options (n + n') (m + m') (evs ++ evs').
Proof.
  intros (Ha & Hr & Ht) (Ha' & Hr' & Ht'). split; [by apply Forall_app|].
  rewrite remoteCalls_app, refreshExchanges_app. lia.
Qed.

Lemma within_call url options token :
  within url options 1 0 [RemoteCall url options ("Bearer " +:+ token)].
Proof.
  split; [|split; reflexivity]. apply Forall_singleton. cbn. eauto.
Qed.

(** Every run of [getAccessToken] extends the log by no event or by one
    token exchange. *)
Lemma getAccessToken_log url options forceRefresh c w :
  ∃ evs, log (snd (snd (getAccessToken forceRefresh (c, w)))) = log w ++ evs ∧
         within url options 0 1 evs.
Proof.
  destruct (getAccessToken forceRefresh (c, w)) as [r [c' w']] eqn:Hrun.
  destruct (getAccessToken_frame _ _ _ _ _ _ Hrun) as (_ & Hlog & Hev).
  exists (during w w'). split; [exact Hlog|].
  destruct Hev as [-> | ->]; (split; [|split; vm_compute; lia]).
  - constructor.
  - apply Forall_singleton. reflexivity.
Qed.

(** X1.  Whatever the client holds and whatever the endpoints answer, one
    [request] makes at most two calls to the remote API, every one of them
    for its [url] with its [options] under an [Authorization: Bearer] header,
    and at most two exchanges with the token endpoint, all of grant type
    [refresh_token]. *)
Theorem request_call_bounds url options c w :
  let w' := snd (snd (request url options (c, w))) in
  Forall (addressed url options) (during w w') ∧
  (remoteCalls (during w w') <= 2)%nat ∧ (refreshExchanges (during w w') <= 2)%nat.
Proof.
  cbn zeta.
  assert (∃ evs, log (snd (snd (request url options (c, w)))) = log w ++ evs ∧
                 within url options 2 2 evs) as (evs & Hlog & Hin).
  2: { unfold during. rewrite Hlog, drop_app_length. exact Hin. }
  pose proof (getAccessToken_log url options false c w) as (evs0 & Hlog0 & H0).
  destruct (getAccessToken false (c, w)) as [[tok|e] [c0 w0]] eqn:Htok.
  2: { exists evs0. unfold request, mbind, async_bind, Async.bind. rewrite Htok.
       split; [exact Hlog0|]. destruct H0 as (? & ? & ?). split; [done|]. lia. }
  rewrite (request_unfold _ _ _ _ _ _ _ Htok). cbn zeta. cbn [snd] in Hlog0.
  pose proof (within_app _ _ _ _ _ _ _ _ H0 (within_call url options tok)) as H1.
  destruct (response (next (remoteApi w0)).1) as [res1|].
  2: { eexists. cbn [snd log]. rewrite Hlog0, <- app_assoc. split; [done|].
       destruct H1 as (? & ? & ?). split; [done|]. lia. }
  destruct (status res1 =? 401).
  2: { eexists. split.
       - destruct (ok res1); cbn [snd log]; rewrite Hlog0, <- app_assoc; done.
       - destruct H1 as (? & ? & ?). split; [done|]. lia. }
  match goal with |- context [getAccessToken true (c0, ?w1)] =>
    pose proof (getAccessToken_log url options true c0 w1) as (evs1 & Hlog1 & H2);
    destruct (getAccessToken true (c0, w1)) as [[tok'|e] [c2 w2]] eqn:Hforced
  end; cbn [snd log] in Hlog1.
  all: pose proof (within_app _ _ _ _ _ _ _ _ H1 H2) as H3.
  2: { eexists. cbn [snd log]. rewrite Hlog1, Hlog0, <- !app_assoc. split; [done|].
       rewrite app_assoc. destruct H3 as (? & ? & ?). split; [done|]. lia. }
  pose proof (within_app _ _ _ _ _ _ _ _ H3 (within_call url options tok')) as H4.
  eexists. split.
  - destruct (response _) as [res2|]; [destruct (ok res2)|]; cbn [snd log];
      rewrite Hlog1, Hlog0, <- !app_assoc; done.
  - rewrite !app_assoc. destruct H4 as (? & ? & ?). split; [done|]. lia.
Qed.


(** X3.  A call of [getAccessToken] that throws leaves the client as it
    was: the access token, the refresh token and the expiry it holds are
    those it held before; and it has not touched the remote API. *)
Theorem getAccessToken_failure_keeps_client forceRefresh c w e c' w' :
  getAccessToken forceRefresh (c, w) = (Throw e, (c', w')) →
  c' = c ∧ remoteApi w' = remoteApi w.
Proof.
  rewrite getAccessToken_unfold. cbn zeta.
  repeat case_match; intros [= <- <- <-] || intros [=]; done.
Qed.

(** X4.  The token that [getAccessToken] returns is the one the client
    holds afterwards; when it is not empty, every later non-forced call made
    before the expiry the client has recorded returns it again, with no
    network call and no change to the client. *)
Theorem getAccessToken_served_again forceRefresh c w tok c' w' :
  getAccessToken forceRefresh (c, w) = (Return tok, (c', w')) →
  tok ≠ "" →
  currentAccessToken c' = tok ∧
  ∀ w'', now w'' < tokenExpiry c' →
    getAccessToken false (c', w'') = (Return tok, (c', w'')).
Proof.
  intros Hrun Hne.
  assert (currentAccessToken c' = tok) as Hcur.
  { rewrite getAccessToken_unfold in Hrun. cbn zeta in Hrun.
    repeat case_match; try discriminate; by simplify_eq. }
  split; [done|]. intros w'' Hnow.
  rewrite getAccessToken_unfold. rewrite Hcur.
  apply truthy_nonempty in Hne. rewrite Hne.
  apply Z.ltb_lt in Hnow. rewrite Hnow. reflexivity.
Qed.

(** X21.  Without a token there is no call: when [getAccessToken] throws
    (an expired or empty token and no refresh token, a refused exchange),
    [request] throws the same error, leaves the same state and has not
    called the remote API. *)
Theorem request_without_token url options c w e s' :
  getAccessToken false (c, w) = (Throw e, s') →
  request url options (c, w) = (Throw e, s') ∧
  remoteCalls (during w (snd s')) = 0%nat.
Proof.
  intros Htok. split.
  - unfold request, mbind, async_bind, Async.bind. by rewrite Htok.
  - destruct s' as [c' w']. cbn [snd].
    destruct (getAccessToken_frame _ _ _ _ _ _ Htok) as (_ & _ & [-> | ->]);
      reflexivity.
Qed.

(** X5.  A client built from a configuration without [expiresAt] has
    expiry 0, so that (the clock not being before the epoch) its first
    non-forced [getAccessToken] never trusts the configured access token:
    with a refresh token it makes one exchange, without one it throws the
    no-refresh-token error with no network call. *)
Theorem new_without_expiresAt cfg w :
  expiresAt cfg = None → 0 <= now w →
  let run := getAccessToken false (new cfg, w) in
  (refreshToken cfg = "" →
     run = (Throw (DriveApiError 401 "Access token expired and no refresh token available"),
            (new cfg, w))) ∧
  (refreshToken cfg ≠ "" → refreshExchanges (during w (snd (snd run))) = 1%nat).
Proof.
  intros Hexp Hnow. cbn zeta. rewrite getAccessToken_unfold. unfold new. cbn.
  rewrite Hexp. cbn.
  assert ((now w <? 0) = false) as -> by (apply Z.ltb_ge; lia).
  rewrite andb_false_r. split.
  - intros ->. reflexivity.
  - intros Hne. apply truthy_nonempty in Hne. rewrite Hne. cbn.
    repeat case_match; cbn; unfold during; cbn; by rewrite drop_app_length.
Qed.

End DriveMore.

Section HandlerMore.
Import Js Async Http Handler HandlerLog.

Ltac step :=
  unfold mbind at 1, async_bind at 1, Async.bind at 1.

Lemma handleCallback_redeem request code stateKey text env :
  truthy_opt (searchParams_get "error" (searchParams request)) = false →
  searchParams_get "code" (searchParams request) = Some code → code ≠ "" →
  searchParams_get "state" (searchParams request) = Some stateKey → stateKey ≠ "" →
  kv_lookup (stateKeyOf stateKey) env = Some text → text ≠ "" →
  handleCallback request env =
    match JSON_parse text with
    | None => (Throw SyntaxError, with_kv (delete (stateKeyOf stateKey) (OAUTH_KV env)) env)
    | Some oauthReq =>
        redeem request code oauthReq
          (with_kv (delete (stateKeyOf stateKey) (OAUTH_KV env)) env)
    end.
Proof.
  intros He Hc Hcne Hs Hsne Hl Htne.
  apply truthy_nonempty in Hcne, Hsne, Htne.
  unfold handleCallback. rewrite He, Hc, Hs.
  change (default "" (Some stateKey)) with stateKey.
  change (default "" (Some code)) with code.
  cbn [truthy_opt negb orb]. rewrite Hcne, Hsne. cbn [negb orb].
  step. unfold kv_get at 1, gets at 1. rewrite Hl.
  cbn [truthy_opt]. rewrite Htne. cbn [negb].
  step. unfold kv_delete at 1, modify at 1.
  step. change (default "" (Some text)) with text. unfold parse at 1.
  destruct (JSON_parse text) as [oauthReq|]; reflexivity.
Qed.

Ltac run_redeem :=
  unfold redeem, fetchToken, fetchUserInfo, completeAuthorization, res_json, scopeOf,
    Date_now, mbind, mret, async_bind, async_ret, Async.bind, Async.ret, Async.throw,
    Async.gets.

Lemma redeem_events request code oauthReq env :
  let run := redeem request code oauthReq env in
  OAUTH_KV (snd run) = OAUTH_KV env ∧
  orderly (during env (snd run)) = true ∧
  (succeeded run = true → length (during env (snd run)) = 3%nat).
Proof.
  cbn zeta. run_redeem.
  destruct (next (tokenEndpoint env)) as [treply trest].
  destruct (response treply) as [tokenRes|]; cbn.
  2: { unfold during; cbn. rewrite drop_app_length. done. }
  destruct (ok tokenRes); cbn.
  2: { unfold during; cbn. rewrite drop_app_length. done. }
  destruct (body_json tokenRes) as [tokens|]; cbn.
  2: { unfold during; cbn. rewrite drop_app_length. done. }
  destruct (truthy_opt (refresh_token tokens)); cbn.
  2: { unfold during; cbn. rewrite drop_app_length. done. }
  destruct (next (userInfoEndpoint env)) as [ureply urest].
  destruct (response ureply) as [userRes|]; cbn.
  2: { unfold during; cbn. rewrite <- app_assoc, drop_app_length. done. }
  destruct (ok userRes); cbn.
  2: { unfold during; cbn. rewrite <- app_assoc, drop_app_length. done. }
  destruct (body_json userRes) as [userInfo|]; cbn.
  2: { unfold during; cbn. rewrite <- app_assoc, drop_app_length. done. }
  destruct oauthReq; cbn;
    try (unfold during; cbn; rewrite <- app_assoc, drop_app_length; done);
    destruct (grants env) as [|[redirectTo|] ?]; cbn;
    unfold during; cbn; rewrite <- !app_assoc, drop_app_length; done.
Qed.

Lemma truthy_opt_Some o : truthy_opt o = true → ∃ s, o = Some s ∧ s ≠ "".
Proof.
  destruct o as [s|]; [|discriminate]. intros H%truthy_nonempty. by exists s.
Qed.

(** X6.  Whatever the request and the environment, the calls that one
    [handleCallback] makes are, in this order, at most one code exchange,
    then at most one user-info call, then at most one
    [completeAuthorization], none without the one before; a callback that
    succeeds has made all three; and a callback that has made any call
    carried a state that was in the store and has deleted it. *)
Theorem handleCallback_calls_in_order request env :
  let run := handleCallback request env in
  let evs := during env (snd run) in
  orderly evs = true ∧
  (succeeded run = true → length evs = 3%nat) ∧
  (evs ≠ [] →
   ∃ stateKey, searchParams_get "state" (searchParams request) = Some stateKey ∧
               kv_lookup (stateKeyOf stateKey) env ≠ None ∧
               OAUTH_KV (snd run) = delete (stateKeyOf stateKey) (OAUTH_KV env)).
Proof.
  cbn zeta.
  destruct (handleCallback_cases request env) as [[Henv Hno]|Hfound].
  { rewrite Henv, during_refl. split; [done|]. split; [congruence|done]. }
  destruct Hfound as (stateKey & Hwf & Hs & Hsne & Hl).
  unfold wellFormed in Hwf. apply andb_true_iff in Hwf as [He Hc].
  apply negb_true_iff in He.
  apply truthy_opt_Some in Hc as (code & Hc & Hcne).
  apply truthy_opt_Some in Hl as (text & Hl & Htne).
  rewrite (handleCallback_redeem _ _ _ _ _ He Hc Hcne Hs Hsne Hl Htne).
  set (env1 := with_kv (delete (stateKeyOf stateKey) (OAUTH_KV env)) env).
  assert (Hd : ∀ e, during env e = during env1 e) by reflexivity.
  destruct (JSON_parse text) as [oauthReq|].
  2: { cbn [snd]. rewrite Hd, during_refl. split; [done|]. split; done. }
  destruct (redeem_events request code oauthReq env1) as (Hkv & Hord & Hlen).
  rewrite Hd. split; [done|]. split; [done|].
  intros _. exists stateKey. split; [done|]. split; [congruence|]. by rewrite Hkv.
Qed.

(** X7.  The state that [handleAuthorize] stores, under the key made of
    the UUID it drew, is the serialised authorization request, and it lives
    for 600 seconds: read before that time has passed it is found, and from
    then on it is gone, so that a well-formed callback for it is answered
    [Invalid or expired OAuth state] and changes nothing. *)
Theorem handleAuthorize_state_ttl request env oauthReq rest :
  authRequests env = Some oauthReq :: rest →
  let stateKey := uuids env (drawn env) in
  let issued := snd (handleAuthorize request env) in
  ∀ t,
    (t < now env + 600 * 1000 →
       kv_lookup (stateKeyOf stateKey) (at_time t issued) = Some (JSON_stringify oauthReq)) ∧
    (now env + 600 * 1000 <= t →
       kv_lookup (stateKeyOf stateKey) (at_time t issued) = None ∧
       ∀ callback,
         wellFormed callback = true →
         searchParams_get "state" (searchParams callback) = Some stateKey →
         stateKey ≠ "" →
         handleCallback callback (at_time t issued) =
           (Return ErrInvalidOrExpiredState, at_time t issued)).
Proof.
  intros Hreq stateKey issued t.
  assert (Hkv : OAUTH_KV issued =
                <[stateKeyOf stateKey :=
                    {| value := JSON_stringify oauthReq;
                       expiration := Some (now env + 600 * 1000) |}]> (OAUTH_KV env)).
  { subst issued. unfold handleAuthorize, parseAuthRequest, randomUUID, kv_put,
      mbind, mret, async_bind, async_ret, Async.bind, Async.ret, Async.modify, Async.gets.
    rewrite Hreq. reflexivity. }
  assert (Hl : kv_lookup (stateKeyOf stateKey) (at_time t issued) =
               if now env + 600 * 1000 <=? t then None else Some (JSON_stringify oauthReq)).
  { unfold kv_lookup, at_time. cbn [OAUTH_KV now]. rewrite Hkv, lookup_insert_eq.
    unfold expired. cbn [expiration value]. reflexivity. }
  split.
  - intros Hlt. rewrite Hl. apply Z.leb_gt in Hlt. by rewrite Hlt.
  - intros Hge. apply Z.leb_le in Hge. rewrite Hge in Hl. split; [done|].
    intros callback Hwf Hs Hne. apply (handleCallback_absent _ stateKey); try done.
    by rewrite Hl.
Qed.

(** X8.  The successful callback, end to end.  When the callback carries a
    code and the state under which the serialised [oauthReq] is stored, the
    provider grants the exchange with a refresh token and answers the
    user-info call, [handleCallback] redirects to where
    [completeAuthorization] says, having called it with the very [oauthReq]
    that was stored (it survives the trip through the store as JSON), the
    user's id, email and name, the scope of [oauthReq], and the credential
    pair of the exchange expiring [expires_in] seconds after the time of
    that call; and the state is gone from the store. *)
Theorem handleCallback_completes request code stateKey oauthReq env
    treply trest tokenRes tokens newRefreshToken ureply urest userRes userInfo
    redirectTo grest :
  truthy_opt (searchParams_get "error" (searchParams request)) = false →
  searchParams_get "code" (searchParams request) = Some code → code ≠ "" →
  searchParams_get "state" (searchParams request) = Some stateKey → stateKey ≠ "" →
  kv_lookup (stateKeyOf stateKey) env = Some (JSON_stringify oauthReq) →
  oauthReq ≠ JNull →
  tokenEndpoint env = treply :: trest → response treply = Some tokenRes →
  ok tokenRes = true → body_json tokenRes = Some tokens →
  refresh_token tokens = Some newRefreshToken → newRefreshToken ≠ "" →
  userInfoEndpoint env = ureply :: urest → response ureply = Some userRes →
  ok userRes = true → body_json userRes = Some userInfo →
  grants env = Some redirectTo :: grest →
  let run := handleCallback request env in
  fst run = Return (Redirect (Href redirectTo) 302) ∧
  during env (snd run) =
    [CodeExchange code (GOOGLE_CLIENT_ID env) (GOOGLE_CLIENT_SECRET env)
       (origin request +:+ "/callback") "authorization_code";
     UserInfoCall ("Bearer " +:+ access_token tokens);
     CompleteAuthorization
       {| request := oauthReq;
          userId := id userInfo;
          metadata := (email userInfo, name userInfo);
          scope := optGet (Some oauthReq) "scope";
          props := {| accessToken := access_token tokens;
                      refreshToken := newRefreshToken;
                      expiresAt := now env + Z.of_N (latency treply)
                                   + Z.of_N (latency ureply)
                                   + expires_in tokens * 1000 |} |}] ∧
  kv_lookup (stateKeyOf stateKey) (snd run) = None.
Proof.
  intros He Hc Hcne Hs Hsne Hl Hnn Ht Htr Htok Htd Hrt Hrtne Hu Hur Huok Hud Hg.
  cbn zeta.
  assert (JSON_stringify oauthReq ≠ "") as Htne.
  { destruct (JSON_stringify_head oauthReq) as (c & s & -> & _). done. }
  rewrite (handleCallback_redeem _ _ _ _ _ He Hc Hcne Hs Hsne Hl Htne).
  rewrite JSON_parse_stringify.
  set (env1 := with_kv (delete (stateKeyOf stateKey) (OAUTH_KV env)) env).
  assert (Hd : ∀ e, during env e = during env1 e) by reflexivity.
  rewrite Hd.
  destruct (redeem_events request code oauthReq env1) as (Hkv & _ & _).
  assert (kv_lookup (stateKeyOf stateKey) (snd (redeem request code oauthReq env1)) = None)
    as Hgone.
  { unfold kv_lookup. rewrite Hkv. subst env1. cbn [OAUTH_KV with_kv].
    by rewrite lookup_delete_eq. }
  split; [|split]; [| |exact Hgone]; clear Hgone Hkv.
  all: run_redeem; subst env1; cbn [with_kv tokenEndpoint userInfoEndpoint grants
         GOOGLE_CLIENT_ID GOOGLE_CLIENT_SECRET now log];
       rewrite Ht; cbn [next]; rewrite Htr, Htok; cbn [negb];
       rewrite Htd, Hrt; cbn [truthy_opt];
       apply truthy_nonempty in Hrtne; rewrite Hrtne; cbn [negb userInfoEndpoint];
       rewrite Hu; cbn [next]; rewrite Hur, Huok; cbn [negb]; rewrite Hud;
       destruct oauthReq; try done; cbn; rewrite Hg; cbn.
  all: try reflexivity.
  all: unfold during; cbn; rewrite <- !app_assoc, drop_app_length; reflexivity.
Qed.

(** X9.  A callback that fails validation is answered 400 and touches
    nothing, so that no state is consumed and no call is made.  With an
    [error] parameter the answer names [error_description] when that
    parameter is present (an empty one included) and [error] otherwise;
    without [error], a missing or empty [code] or [state] is answered
    [Missing code or state parameter]. *)
Theorem handleCallback_validation request env :
  let error := searchParams_get "error" (searchParams request) in
  let error_description := searchParams_get "error_description" (searchParams request) in
  (truthy_opt error = true →
     handleCallback request env =
       (Return (Respond ("Google OAuth error: "
                         +:+ default (default "" error) error_description) 400), env)) ∧
  (truthy_opt error = false →
   truthy_opt (searchParams_get "code" (searchParams request)) = false ∨
   truthy_opt (searchParams_get "state" (searchParams request)) = false →
     handleCallback request env =
       (Return (Respond "Missing code or state parameter" 400), env)).
Proof.
  cbn zeta. split.
  - intros He. by rewrite handleCallback_error.
  - intros He Hm. by apply handleCallback_missing.
Qed.

Lemma stateKeyOf_inj a b : stateKeyOf a = stateKeyOf b → a = b.
Proof. unfold stateKeyOf. intros H. by simplify_eq. Qed.

Lemma handleAuthorize_store request env oauthReq rest :
  authRequests env = Some oauthReq :: rest →
  let issued := snd (handleAuthorize request env) in
  OAUTH_KV issued =
    <[stateKeyOf (uuids env (drawn env)) :=
        {| value := JSON_stringify oauthReq;
           expiration := Some (now env + 600 * 1000) |}]> (OAUTH_KV env) ∧
  now issued = now env ∧ uuids issued = uuids env ∧ drawn issued = S (drawn env) ∧
  authRequests issued = rest.
Proof.
  intros Hreq. cbn zeta.
  unfold handleAuthorize, parseAuthRequest, randomUUID, kv_put,
    mbind, mret, async_bind, async_ret, Async.bind, Async.ret, Async.modify, Async.gets.
  rewrite Hreq. done.
Qed.

(** X10.  Two authorizations in a row whose state keys differ are held
    side by side: after the second, each key still gives the request it was
    stored for, and no other key of the namespace has changed. *)
Theorem handleAuthorize_independent_states request1 request2 env oauthReq1 oauthReq2 rest :
  authRequests env = Some oauthReq1 :: Some oauthReq2 :: rest →
  let stateKey1 := uuids env (drawn env) in
  let stateKey2 := uuids env (S (drawn env)) in
  stateKey1 ≠ stateKey2 →
  let issued := snd (handleAuthorize request2 (snd (handleAuthorize request1 env))) in
  kv_lookup (stateKeyOf stateKey1) issued = Some (JSON_stringify oauthReq1) ∧
  kv_lookup (stateKeyOf stateKey2) issued = Some (JSON_stringify oauthReq2) ∧
  ∀ key, key ≠ stateKeyOf stateKey1 → key ≠ stateKeyOf stateKey2 →
         OAUTH_KV issued !! key = OAUTH_KV env !! key.
Proof.
  intros Hreq stateKey1 stateKey2 Hne issued.
  destruct (handleAuthorize_store request1 env oauthReq1 _ Hreq)
    as (Hkv1 & Hnow1 & Huu1 & Hdr1 & Hreq1).
  destruct (handleAuthorize_store request2 _ oauthReq2 _ Hreq1)
    as (Hkv2 & Hnow2 & Huu2 & Hdr2 & _).
  fold issued in Hkv2, Hnow2. rewrite Huu1, Hdr1, Hnow1 in Hkv2. fold stateKey2 in Hkv2.
  rewrite Hkv1 in Hkv2. fold stateKey1 in Hkv2.
  assert (stateKeyOf stateKey1 ≠ stateKeyOf stateKey2) as Hk
    by (intros ?%stateKeyOf_inj; done).
  assert (Hfresh : ∀ v, expired (now issued)
            {| value := v; expiration := Some (now env + 600 * 1000) |} = false).
  { intros v. unfold expired. cbn. rewrite Hnow2, Hnow1. apply Z.leb_gt. lia. }
  unfold kv_lookup. rewrite Hkv2. repeat split.
  - rewrite lookup_insert_ne by done. rewrite lookup_insert_eq. by rewrite Hfresh.
  - rewrite lookup_insert_eq. by rewrite Hfresh.
  - intros key H1 H2. by rewrite !lookup_insert_ne.
Qed.

End HandlerMore.

Section UriFacts.
Import Js Uri.





End UriFacts.

Section AnyFacts.
Import Js Async Http Any.

Lemma stable_prop {S T} (f : S → T) v k : stable f (prop v k : Async.t S any).
Proof. intros s. unfold prop. by destruct v as [[]|]. Qed.

Lemma stable_traverse {S A B T} (f : S → T) (g : A → Async.t S B) xs :
  (∀ x, stable f (g x)) → stable f (traverse g xs).
Proof.
  intros Hg. induction xs as [|x xs IH]; cbn [traverse].
  - apply stable_ret.
  - apply stable_bind; [apply Hg|]. intros y.
    apply stable_bind; [apply IH|]. intros ys. apply stable_ret.
Qed.

(** The state that a [try] block with a quiet tail and a quiet handler
    leaves is the one its first call leaves. *)
Lemma try_catch_state {S A B T} (f : S → T) (call : Async.t S A) (k : A → Async.t S B)
    (handler : exn → Async.t S B) s :
  (∀ a, stable f (k a)) → (∀ err, stable f (handler err)) →
  f (snd (try_catch (call ≫= k) handler s)) = f (snd (call s)).
Proof.
  intros Hk Hh. unfold try_catch, mbind, async_bind, Async.bind.
  destruct (call s) as [[a|err] s1]; cbn [snd].
  - specialize (Hk a s1). destruct (k a s1) as [[b|err] s2]; cbn [snd] in *; [done|].
    by rewrite Hh.
  - apply Hh.
Qed.

(** A handler that answers every error lets none escape. *)
Lemma try_catch_returns {S A} (body : Async.t S A) (g : exn → A) s :
  ∃ a, fst (try_catch body (λ err, mret (g err)) s) = Return a.
Proof.
  unfold try_catch. destruct (body s) as [[a|err] s']; cbn; eauto.
Qed.

End AnyFacts.

Section ToolFacts.
Import Js Async Http Drive DriveLog Host Uri Any Types Client Tools.
Context (host : Host.t).

Lemma stable_elements {S T} (f : S → T) files : stable f (elements files : Async.t S _).
Proof. intros s. unfold elements. by destruct files. Qed.

Ltac quiet :=
  cbn zeta;
  repeat first
    [ apply stable_ret | apply stable_throw | apply stable_prop | apply stable_res_json
    | apply stable_elements | apply stable_if
    | apply stable_traverse; intros ?
    | apply stable_bind; [|intros ?] ].

(** The state a call leaves when what follows it touches nothing. *)
Lemma bind_state {S A B} (m : Async.t S A) (k : A → Async.t S B) s :
  (∀ a, stable id (k a)) → snd ((m ≫= k) s) = snd (m s).
Proof.
  intros Hk. unfold mbind, async_bind, Async.bind.
  destruct (m s) as [[a|err] s1]; [apply (Hk a s1)|reflexivity].
Qed.

Lemma files_list_state q pageSize fields orderBy pageToken s :
  snd (files_list host q pageSize fields orderBy pageToken s) =
  snd (request (apiUrl host "/files" [
         ("q", q); ("pageSize", decimal <$> pageSize); ("fields", fields);
         ("orderBy", orderBy); ("pageToken", pageToken)]) noOptions s).
Proof. unfold files_list. apply bind_state. intros res. quiet. Qed.

(** [parts.join(sep)] for a first part, parts in the middle and a last one. *)
Lemma join_middle sep first middle last :
  join sep (first :: middle ++ [last]) =
    first +:+ String.concat "" (map (λ m, sep +:+ m) middle) +:+ sep +:+ last.
Proof.
  revert first. induction middle as [|m middle IH]; intros first.
  - cbn [app map]. rewrite join_cons. reflexivity.
  - cbn [app map]. rewrite join_cons, IH.
    change (String.concat "" (?x :: ?xs)) with (join "" (x :: xs)).
    destruct middle as [|m' middle].
    + cbn. by rewrite !sapp_assoc, ?sapp_nil_r.
    + cbn [map]. rewrite join_cons. cbn. by rewrite !sapp_assoc.
Qed.

Lemma replaceAll_app c r a b :
  replaceAll c r (a +:+ b) = replaceAll c r a +:+ replaceAll c r b.
Proof.
  induction a as [|d a IH]; [reflexivity|].
  rewrite sapp_cons. cbn [replaceAll]. by rewrite IH, sapp_assoc.
Qed.

Lemma escapedQuery_cons c query :
  escapedQuery (String c query) =
    (if Ascii.eqb c BS then String BS (String BS "")
     else if Ascii.eqb c "'" then String BS "'"
     else String c "") +:+ escapedQuery query.
Proof.
  unfold escapedQuery. cbn [replaceAll]. rewrite replaceAll_app. f_equal.
  destruct (Ascii.eqb c BS) eqn:Hb.
  - reflexivity.
  - cbn [replaceAll]. destruct (Ascii.eqb c "'"); reflexivity.
Qed.

(** X11.  The escaping of the search text ([\] doubled, then [']
    preceded by [\]) makes it safe inside the quoted literal of the query:
    read back as a literal, the escaped text followed by the closing quote
    stands for the search text as given, and the literal ends at that
    closing quote, whatever the text holds. *)
Theorem escapedQuery_reads_back query rest :
  readLiteral (escapedQuery query +:+ "'" +:+ rest) = Some (query, rest).
Proof.
  change ("'" +:+ rest) with (String "'" rest).
  induction query as [|c query IH]; [reflexivity|].
  rewrite escapedQuery_cons, sapp_assoc.
  destruct (Ascii.eqb c BS) eqn:Hb.
  - apply Ascii.eqb_eq in Hb as ->.
    rewrite !sapp_cons, sapp_nil_l. cbn [readLiteral].
    change (Ascii.eqb BS "'") with false. change (Ascii.eqb BS BS) with true.
    cbn beta iota. by rewrite IH.
  - destruct (Ascii.eqb c "'") eqn:Hq.
    + apply Ascii.eqb_eq in Hq as ->.
      rewrite !sapp_cons, sapp_nil_l. cbn [readLiteral].
      change (Ascii.eqb BS "'") with false. change (Ascii.eqb BS BS) with true.
      cbn beta iota. by rewrite IH.
    + rewrite sapp_cons, sapp_nil_l. cbn [readLiteral]. rewrite Hq, Hb.
      by rewrite IH.
Qed.

(** X12.  [gdrive_search] never rejects: it always returns a tool result.
    What it does to the client and the world is what one [request] for the
    file list does, with the parameters [q], [pageSize] (20 unless given),
    [fields] and [orderBy]; [q] opens with [fullText contains] and the
    quoted, escaped search text, and closes with the clause
    [trashed = false]. *)
Theorem gdrive_search_request query pageSize fileType modifiedAfter sharedWithMe c w :
  let run := gdrive_search host query pageSize fileType modifiedAfter sharedWithMe (c, w) in
  ∃ more result,
    let q := "fullText contains '" +:+ escapedQuery query +:+ "'" +:+ more
             +:+ " and trashed = false" in
    fst run = Return result ∧
    snd run = snd (request
                     (href host (API_BASE +:+ "/files") [
                        ("q", q);
                        ("pageSize", decimal (default 20 pageSize));
                        ("fields", "files(" +:+ FILE_FIELDS +:+ ")");
                        ("orderBy", "modifiedTime desc")])
                     noOptions (c, w)).
Proof.
  cbn zeta. unfold gdrive_search.
  match goal with |- context [join " and " ([?first] ++ ?a ++ ?b ++ ?c ++ [?last])] =>
    exists (String.concat "" (map (λ m, " and " +:+ m) (a ++ b ++ c)));
    replace (join " and " ([first] ++ a ++ b ++ c ++ [last]))
      with (first +:+ String.concat "" (map (λ m, " and " +:+ m) (a ++ b ++ c))
            +:+ " and " +:+ last)
      by (rewrite <- join_middle; by rewrite <- !app_assoc)
  end.
  match goal with |- context [try_catch ?body ?handler] =>
    destruct (try_catch_returns body
                (λ err, errorResponse ("Search failed: " +:+ formatDriveError host err))
                (c, w)) as [result Hresult]
  end.
  exists result. split; [exact Hresult|].
  match goal with |- context [try_catch (?call ≫= ?k) ?handler] =>
    pose proof (try_catch_state id call k handler (c, w)) as Hstate
  end.
  cbn [id] in Hstate. rewrite Hstate.
  - rewrite files_list_state. unfold apiUrl. cbn. by rewrite !sapp_assoc.
  - intros data. quiet.
  - intros err. quiet.
Qed.

Lemma list_query (folderId query : option string) (includeTrash : option bool) :
  let clauses :=
    (if truthy_opt folderId then ["'" +:+ default "" folderId +:+ "' in parents"] else [])
    ++ (if truthy_opt query then [default "" query] else [])
    ++ (if negb (default false includeTrash) then ["trashed = false"] else []) in
  let q := if bool_decide (0 < length clauses)%nat
           then Some (join " and " clauses) else None in
  (q = None ↔ truthy_opt folderId = false ∧ truthy_opt query = false ∧
              includeTrash = Some true) ∧
  (includeTrash ≠ Some true → ∃ before, q = Some (before +:+ "trashed = false")).
Proof.
  cbn zeta.
  destruct (truthy_opt folderId), (truthy_opt query), includeTrash as [[]|];
    cbn [negb default from_option id app length];
    first [rewrite bool_decide_eq_true_2 by lia | rewrite bool_decide_eq_false_2 by lia];
    (split; [split; [done|intros (? & ? & ?); done]|]); intros Hno; try done.
  all: rewrite ?join_cons; cbn [join String.concat].
  all: try (by exists "").
  all: try (eexists; rewrite <- ?sapp_assoc; reflexivity).
Qed.

(** X13.  [gdrive_list_files] never rejects; what it does to the client and
    the world is what one [request] for the file list does, 20 results
    ordered by [modifiedTime desc] unless told otherwise.  Unless
    [includeTrash] is [true] the query ends with [trashed = false]; the
    [q] parameter is absent exactly when there is no (non-empty) folder id,
    no (non-empty) custom query, and [includeTrash] is [true]. *)
Theorem gdrive_list_files_request folderId pageSize orderBy query pageToken includeTrash c w :
  let run := gdrive_list_files host folderId pageSize orderBy query pageToken
               includeTrash (c, w) in
  ∃ q result,
    fst run = Return result ∧
    snd run = snd (request
                     (apiUrl host "/files" [
                        ("q", q);
                        ("pageSize", Some (decimal (default 20 pageSize)));
                        ("fields", Some ("nextPageToken, files(" +:+ FILE_FIELDS +:+ ")"));
                        ("orderBy", Some (default "modifiedTime desc" orderBy));
                        ("pageToken", pageToken)])
                     noOptions (c, w)) ∧
    (q = None ↔ truthy_opt folderId = false ∧ truthy_opt query = false ∧
                includeTrash = Some true) ∧
    (includeTrash ≠ Some true → ∃ before, q = Some (before +:+ "trashed = false")).
Proof.
  cbn zeta. unfold gdrive_list_files.
  match goal with |- context [files_list host ?q] => exists q end.
  match goal with |- context [try_catch ?body ?handler] =>
    destruct (try_catch_returns body
                (λ err, errorResponse ("Failed to list files: " +:+ formatDriveError host err))
                (c, w)) as [result Hresult]
  end.
  exists result. split; [exact Hresult|]. split; [|apply list_query].
  match goal with |- context [try_catch (?call ≫= ?k) ?handler] =>
    pose proof (try_catch_state id call k handler (c, w)) as Hstate
  end.
  cbn [id] in Hstate. rewrite Hstate.
  - by rewrite files_list_state.
  - intros data. quiet.
  - intros err. quiet.
Qed.




Lemma files_create_state requestBody media fields s :
  snd (files_create host requestBody media fields s) =
  snd (match media with
       | Some (mimeType, body) =>
           let mp := buildMultipart (orEmpty requestBody) body mimeType in
           request
             (uploadUrl host "/files" [("uploadType", Some "multipart"); ("fields", fields)])
             (sending "POST" (contentType mp) (Drive.body mp)) s
       | None =>
           request (apiUrl host "/files" [("fields", fields)])
             (sending "POST" "application/json" (JSON_stringify (orEmpty requestBody))) s
       end).
Proof.
  unfold files_create. destruct media as [[mimeType body]|];
    apply bind_state; intros res; quiet.
Qed.

(** X16.  [gdrive_create_file] never rejects.  The metadata it sends,
    read back from its JSON, has the name and, when given and not empty
    (and only then), the type, the parent and the description.  Without content, or with empty content, what it does is
    one [POST] of the metadata as JSON; with content, one multipart upload
    of metadata and content to the upload endpoint, the content typed
    [text/html] for a Google Doc, [text/csv] for a Google Sheet, as the
    given type otherwise, and [text/plain] when no type is given. *)
Theorem gdrive_create_file_request name mimeType content parentId description c w :
  let requestBody := JObj (
    [("name", JStr name)]
    ++ whenSet "mimeType" mimeType JStr
    ++ whenSet "parents" parentId (λ parentId, JArr [JStr parentId])
    ++ whenSet "description" description JStr) in
  let run := gdrive_create_file host name mimeType content parentId description (c, w) in
  (∃ result, fst run = Return result) ∧
  (truthy_opt content = false →
     snd run = snd (request
                      (href host (API_BASE +:+ "/files") [("fields", FILE_FIELDS)])
                      (sending "POST" "application/json" (JSON_stringify requestBody))
                      (c, w))) ∧
  (∀ text, content = Some text → text ≠ "" →
     ∃ uploadMime,
       let mp := buildMultipart requestBody text uploadMime in
       snd run = snd (request
                        (href host (UPLOAD_BASE +:+ "/files")
                           [("uploadType", "multipart"); ("fields", FILE_FIELDS)])
                        (sending "POST" (contentType mp) (body mp))
                        (c, w)) ∧
       (mimeType = Some DOCUMENT → uploadMime = "text/html") ∧
       (mimeType = Some SPREADSHEET → uploadMime = "text/csv") ∧
       (truthy_opt mimeType = false → uploadMime = "text/plain") ∧
       (∀ m, mimeType = Some m → m ≠ "" → m ≠ DOCUMENT → m ≠ SPREADSHEET →
             uploadMime = m)) ∧
  JSON_parse (JSON_stringify requestBody) = Some requestBody ∧
  optGet (Some requestBody) "name" = Some (JStr name) ∧
  optGet (Some requestBody) "mimeType" =
    (if truthy_opt mimeType then JStr <$> mimeType else None) ∧
  optGet (Some requestBody) "parents" =
    (if truthy_opt parentId then (λ parentId, JArr [JStr parentId]) <$> parentId else None) ∧
  optGet (Some requestBody) "description" =
    (if truthy_opt description then JStr <$> description else None).
Proof.
  cbn zeta. unfold gdrive_create_file.
  match goal with |- context [try_catch ?body ?handler] =>
    destruct (try_catch_returns body
                (λ err, errorResponse ("Failed to create file: " +:+ formatDriveError host err))
                (c, w)) as [result Hresult]
  end.
  split; [by exists result|]. clear Hresult result.
  match goal with |- context [try_catch (?call ≫= ?k) ?handler] =>
    pose proof (try_catch_state id call k handler (c, w)) as Hstate
  end.
  cbn [id] in Hstate. rewrite Hstate; [|intros data; quiet|intros err; quiet].
  clear Hstate. rewrite files_create_state. split; [|split].
  3: { split; [apply JSON_parse_stringify|].
       destruct mimeType as [[|? ?]|], parentId as [[|? ?]|],
         description as [[|? ?]|]; repeat split. }
  - intros ->. reflexivity.
  - intros text -> Hne. apply truthy_nonempty in Hne. cbn [truthy_opt]. rewrite Hne.
    eexists. split; [reflexivity|].
    split; [intros ->; reflexivity|]. split; [intros ->; reflexivity|].
    split.
    + intros Hm. rewrite Hm.
      destruct mimeType as [[|]|]; try done.
    + intros m -> Hmne Hd Hs. apply truthy_nonempty in Hmne. cbn [truthy_opt].
      rewrite Hmne.
      rewrite !bool_decide_eq_false_2 by congruence. reflexivity.
Qed.

End ToolFacts.

Section IndexFacts.
Import Js Http Index.



(** X18.  A refresh that the provider answers with a JSON body.  When the
    status is not 2xx, or the body has no (or an empty) [access_token], or no
    (or a zero) [expires_in], the callback throws [code: description], from
    [error] and [error_description], with [unknown_error] and [Google token
    refresh failed] standing in for a missing one.  Otherwise the new props,
    the same for the access token and for the grant, hold the new access
    token, the [refresh_token] of the answer when it has one (an empty one
    included) and the old refresh token otherwise, the client id and secret
    as they were, and expire [expires_in] seconds after the answer came; the
    access token's time to live is [expires_in] less 60 seconds, and never
    under 60 seconds. *)
Theorem refreshGoogleAccessToken_answered options p client_id client_secret w
    reply rest tokenRes data :
  props options = Some p → refreshToken p ≠ "" →
  googleClientId p = Some client_id → client_id ≠ "" →
  googleClientSecret p = Some client_secret → client_secret ≠ "" →
  tokenEndpoint w = reply :: rest → response reply = Some tokenRes →
  body_json tokenRes = Some data →
  let run := refreshGoogleAccessToken options w in
  now (snd run) = now w + Z.of_N (latency reply) ∧
  (ok tokenRes = false ∨ truthy_opt (access_token data) = false
   ∨ expires_in data = None ∨ expires_in data = Some 0 →
   fst run = inr (Error (default "unknown_error" (error data) +:+ ": "
                         +:+ default "Google token refresh failed" (error_description data)))) ∧
  (∀ token lifetime,
     ok tokenRes = true → access_token data = Some token → token ≠ "" →
     expires_in data = Some lifetime → lifetime ≠ 0 →
     ∃ result,
       fst run = inl result ∧
       accessTokenProps result = newProps result ∧
       accessToken (newProps result) = token ∧
       refreshToken (newProps result) = default (refreshToken p) (refresh_token data) ∧
       expiresAt (newProps result) = now (snd run) + lifetime * 1000 ∧
       userId (newProps result) = Some (default (options_userId options) (userId p)) ∧
       googleClientId (newProps result) = Some client_id ∧
       googleClientSecret (newProps result) = Some client_secret ∧
       accessTokenTTL result = Z.max 60 (lifetime - 60) ∧
       60 <= accessTokenTTL result).
Proof.
  intros Hp Hrt Hid Hidne Hsec Hsecne Hw Hres Hdata. cbn zeta.
  unfold refreshGoogleAccessToken. rewrite Hp.
  apply truthy_nonempty in Hrt, Hidne, Hsecne.
  rewrite Hrt, Hid, Hsec. cbn [truthy_opt]. rewrite Hidne, Hsecne. cbn [negb orb].
  rewrite Hw. cbn [next]. rewrite Hres, Hdata.
  split; [by destruct (_ || _)|]. split.
  - intros Hbad.
    assert (negb (ok tokenRes) || negb (truthy_opt (access_token data))
            || falsy_number (expires_in data) = true) as ->; [|reflexivity].
    destruct Hbad as [-> | [-> | [-> | ->]]]; cbn; by rewrite ?orb_true_r.
  - intros token lifetime Hok Htok Htokne Hexp Hlife.
    apply truthy_nonempty in Htokne. apply Z.eqb_neq in Hlife.
    rewrite Hok, Htok, Hexp. cbn [truthy_opt falsy_number]. rewrite Htokne, Hlife.
    cbn [negb orb]. eexists. split; [reflexivity|]. cbn.
    repeat (split; [reflexivity|]). lia.
Qed.

End IndexFacts.

Section InitFacts.
Import Js Async Http Drive Index.

(** X19.  [init] throws [Missing authentication props] without props.  With
    the props of a grant made by [handleCallback] it builds a client that
    serves the stored access token, when it is not empty, with no network
    call until the stored expiry, and from the expiry on exchanges the stored
    refresh token, when it is not empty, under the worker's client id and
    secret. *)
Theorem init_client p GOOGLE_CLIENT_ID GOOGLE_CLIENT_SECRET :
  init None GOOGLE_CLIENT_ID GOOGLE_CLIENT_SECRET = inr (Error "Missing authentication props") ∧
  ∃ c, init (Some (stored p)) GOOGLE_CLIENT_ID GOOGLE_CLIENT_SECRET = inl c ∧
    (Handler.accessToken p ≠ "" →
     ∀ w, Drive.now w < Handler.expiresAt p →
       getAccessToken false (c, w) = (Return (Handler.accessToken p), (c, w))) ∧
    (Handler.refreshToken p ≠ "" →
     ∀ w, Handler.expiresAt p <= Drive.now w →
       Drive.during w (snd (snd (getAccessToken false (c, w)))) =
         [TokenExchange GOOGLE_CLIENT_ID GOOGLE_CLIENT_SECRET (Handler.refreshToken p)
            "refresh_token"]).
Proof.
  split; [reflexivity|]. eexists. split; [reflexivity|]. split.
  - intros Hne w Hnow. rewrite getAccessToken_unfold. cbn.
    apply truthy_nonempty in Hne. rewrite Hne.
    apply Z.ltb_lt in Hnow. by rewrite Hnow.
  - intros Hne w Hnow. rewrite getAccessToken_unfold. cbn.
    apply truthy_nonempty in Hne. rewrite Hne.
    apply Z.ltb_ge in Hnow. rewrite Hnow, andb_false_r. cbn.
    repeat case_match; cbn; unfold Drive.during; cbn; by rewrite drop_app_length.
Qed.

End InitFacts.

Section TypesFacts.
Import Js Async Types.
Context (host : Host.t).

Lemma prefix_self a b : String.prefix a (a +:+ b) = true.
Proof.
  induction a as [|c a IH]; [by destruct b|].
  rewrite sapp_cons. cbn [String.prefix]. by destruct (ascii_dec c c).
Qed.

Lemma includes_self a b : includes a (a +:+ b) = true.
Proof.
  destruct a as [|c a].
  - rewrite sapp_nil_l. by destruct b.
  - rewrite sapp_cons. cbn [includes]. rewrite <- sapp_cons. by rewrite prefix_self.
Qed.

Lemma includes_after needle a b :
  includes needle b = true → includes needle (a +:+ b) = true.
Proof.
  intros Hb. induction a as [|c a IH]; [done|].
  rewrite sapp_cons. cbn [includes]. rewrite IH. apply orb_true_r.
Qed.

(** X20.  The text that [formatDriveError] makes of a [DriveApiError] keeps
    the error's message: the message always occurs in it, and for a status
    other than 400, 401, 403 and 404 it is the whole text. *)
Theorem formatDriveError_keeps_message status message :
  includes message (formatDriveError host (DriveApiError status message)) = true ∧
  (status ≠ 401 → status ≠ 403 → status ≠ 404 → status ≠ 400 →
     formatDriveError host (DriveApiError status message) = message).
Proof.
  split.
  - unfold formatDriveError.
    assert (includes message message = true) as Hself.
    { rewrite <- (sapp_nil_r message) at 2. apply includes_self. }
    repeat case_match;
      first [exact Hself | apply includes_after; first [apply includes_self | exact Hself]].
  - intros H1 H2 H3 H4. unfold formatDriveError.
    apply Z.eqb_neq in H1, H2, H3, H4. by rewrite H1, H2, H3, H4.
Qed.

End TypesFacts.

Section DriveMoreExamples.
Import Js Async Http Drive DriveLog Scenario.


Lemma getAccessToken_failure_keeps_client_witness :
  let c := client "AT1" "RT1" 900000 in
  let w := world [refused 500 "unavailable"] [] in
  fst (getAccessToken false (c, w)) = Throw (ErrRefreshFailed 500 "unavailable") ∧
  fst (snd (getAccessToken false (c, w))) = c.
Proof.
  cbn zeta. split; [reflexivity|].
  exact (proj1 (getAccessToken_failure_keeps_client false (client "AT1" "RT1" 900000)
                  (world [refused 500 "unavailable"] []) _ _ _ eq_refl)).
Defined.

Lemma getAccessToken_served_again_witness :
  let c := client "AT1" "RT1" 900000 in
  let run := getAccessToken false (c, world [granted AT2] []) in
  let later := {| now := 4540039; tokenEndpoint := []; remoteApi := []; log := [] |} in
  fst run = Return "AT2" ∧
  getAccessToken false (fst (snd run), later) = (Return "AT2", (fst (snd run), later)).
Proof.
  cbn zeta. split; [reflexivity|].
  destruct (getAccessToken_served_again false (client "AT1" "RT1" 900000)
              (world [granted AT2] []) _ _ _ eq_refl ltac:(discriminate)) as [_ Hagain].
  exact (Hagain {| now := 4540039; tokenEndpoint := []; remoteApi := []; log := [] |}
           ltac:(vm_compute; reflexivity)).
Defined.

Lemma request_without_token_witness :
  let c := client "AT1" "" 900000 in
  let w := world [granted AT2] [answered 200 "OK" (Some (JObj []))] in
  request listFiles GET (c, w) = (Throw ErrNoRefreshToken, (c, w)).
Proof.
  cbn zeta.
  exact (proj1 (request_without_token listFiles GET (client "AT1" "" 900000)
                  (world [granted AT2] [answered 200 "OK" (Some (JObj []))])
                  _ _ eq_refl)).
Defined.

Lemma new_without_expiresAt_witness :
  let cfg := {| accessToken := "AT1"; refreshToken := "RT1"; clientId := "client-id";
                clientSecret := "client-secret"; expiresAt := None |} in
  let w := world [granted AT2] [] in
  refreshExchanges (during w (snd (snd (getAccessToken false (new cfg, w))))) = 1%nat.
Proof.
  cbn zeta.
  destruct (new_without_expiresAt
              {| accessToken := "AT1"; refreshToken := "RT1"; clientId := "client-id";
                 clientSecret := "client-secret"; expiresAt := None |}
              (world [granted AT2] []) eq_refl ltac:(vm_compute; discriminate)) as [_ Hone].
  exact (Hone ltac:(discriminate)).
Defined.

End DriveMoreExamples.

Section HandlerMoreExamples.
Import Js Async Http Handler HandlerLog Handshake.

Lemma handleAuthorize_state_ttl_witness :
  let issued := snd (handleAuthorize authorize (fresh [tokens] [user])) in
  kv_lookup (stateKeyOf "nonce-1") (at_time 1599999 issued) = Some (JSON_stringify oauthReq) ∧
  handleCallback callback (at_time 1600000 issued) =
    (Return ErrInvalidOrExpiredState, at_time 1600000 issued).
Proof.
  cbn zeta.
  pose proof (handleAuthorize_state_ttl authorize (fresh [tokens] [user]) oauthReq []
                eq_refl) as H.
  cbn zeta in H. split.
  - exact (proj1 (H 1599999) ltac:(vm_compute; reflexivity)).
  - destruct (proj2 (H 1600000) ltac:(vm_compute; discriminate)) as [_ Hlate].
    exact (Hlate callback eq_refl eq_refl ltac:(discriminate)).
Defined.

Lemma handleCallback_completes_witness :
  let env := begun [tokens] [user] in
  let run := handleCallback callback env in
  fst run = Return (Redirect (Href "https://client.example/done") 302) ∧
  kv_lookup (stateKeyOf "nonce-1") (snd run) = None.
Proof.
  cbn zeta.
  pose proof (handleCallback_completes callback "abc123" "nonce-1" oauthReq
                (begun [tokens] [user])
                tokens [] _ _ "RT1" user [] _ _ "https://client.example/done" []
                eq_refl eq_refl ltac:(discriminate) eq_refl ltac:(discriminate)
                ltac:(vm_compute; reflexivity) ltac:(discriminate)
                eq_refl eq_refl eq_refl eq_refl eq_refl ltac:(discriminate)
                eq_refl eq_refl eq_refl eq_refl eq_refl) as H.
  cbn zeta in H. destruct H as (Hr & _ & Hgone). split; [exact Hr|exact Hgone].
Defined.

Lemma handleAuthorize_independent_states_witness :
  let first := JObj [("clientId", JStr "mcp-client-1")] in
  let second := JObj [("clientId", JStr "mcp-client-2")] in
  let issued := snd (handleAuthorize authorize
                       (snd (handleAuthorize authorize (Node.twice first second)))) in
  kv_lookup (stateKeyOf "nonce-1") issued = Some (JSON_stringify first) ∧
  kv_lookup (stateKeyOf "nonce-2") issued = Some (JSON_stringify second).
Proof.
  cbn zeta.
  pose proof (handleAuthorize_independent_states authorize authorize
                (Node.twice (JObj [("clientId", JStr "mcp-client-1")])
                            (JObj [("clientId", JStr "mcp-client-2")]))
                _ _ [] eq_refl ltac:(discriminate)) as H.
  cbn zeta in H. destruct H as (H1 & H2 & _). split; [exact H1|exact H2].
Defined.

End HandlerMoreExamples.

Section ToolExamples.
Import Js Async Http Drive Any Types Client Tools Scenario.


(** A search with a quote and a backslash in the query: what is sent, and
    what is shown of two files found. *)
Example gdrive_search_example :
  let found := JObj [("files", JArr [
    JObj [("id", JStr "f1"); ("name", JStr "Notes"); ("mimeType", JStr "text/plain");
          ("modifiedTime", JStr "2024-01-02T03:04:05Z"); ("size", JStr "12")];
    JObj [("id", JStr "f2"); ("name", JStr "Plan");
          ("mimeType", JStr "application/vnd.google-apps.document");
          ("modifiedTime", JStr "2024-02-03T04:05:06Z")]])] in
  let w := world [] [answered 200 "OK" (Some found)] in
  let run := gdrive_search Node.host (String "a" (String BS "b'c")) None (Some image)
               None (Some true) (client "AT1" "RT1" 2000000, w) in
  during w (snd (snd run)) =
    [RemoteCall
       ("https://www.googleapis.com/drive/v3/files?q=fullText contains 'a"
        +:+ String BS (String BS ("b" +:+ String BS "'c' and mimeType contains 'image/' and sharedWithMe = true and trashed = false&pageSize=20&fields=files(id, name, mimeType, modifiedTime, size, parents, webViewLink, description, trashed, createdTime)&orderBy=modifiedTime desc")))
       noOptions "Bearer AT1"] ∧
  fst run = Return (textResponse (
    "Found 2 file(s):" +:+ NL +:+ NL
    +:+ "- Notes (12 bytes)" +:+ NL +:+ "  ID: f1" +:+ NL +:+ "  Type: text/plain" +:+ NL
    +:+ "  Modified: 2024-01-02T03:04:05Z" +:+ NL +:+ NL
    +:+ "- Plan" +:+ NL +:+ "  ID: f2" +:+ NL
    +:+ "  Type: application/vnd.google-apps.document" +:+ NL
    +:+ "  Modified: 2024-02-03T04:05:06Z")).
Proof. vm_compute. split; reflexivity. Qed.

(** Bodies that are not what the handler expects: [null], a list that is
    not an array, no list at all. *)
Example gdrive_search_odd_bodies :
  let run body := fst (gdrive_search Node.host "x" None None None None
                         (client "AT1" "RT1" 2000000,
                          world [] [answered 200 "OK" body])) in
  run (Some JNull) = Return (errorResponse "Search failed: TypeError") ∧
  run None = Return (errorResponse "Search failed: SyntaxError") ∧
  run (Some (JObj [("files", JNum 3)])) =
    Return (errorResponse "Search failed: TypeError") ∧
  run (Some (JObj [])) = Return (textResponse ("No files found matching " +:+ quoted "x" +:+ ".")) ∧
  run (Some (JNum 7)) = Return (textResponse ("No files found matching " +:+ quoted "x" +:+ ".")).
Proof. vm_compute. repeat split. Qed.

Example gdrive_create_file_example :
  let created := JObj [("id", JStr "d1"); ("name", JStr "Report");
                       ("mimeType", JStr "application/vnd.google-apps.document")] in
  let w := world [] [answered 200 "OK" (Some created)] in
  let run := gdrive_create_file Node.host "Report" (Some DOCUMENT) (Some "<p>hi</p>")
               (Some "folder-1") None (client "AT1" "RT1" 2000000, w) in
  let metadata := JObj [("name", JStr "Report"); ("mimeType", JStr DOCUMENT);
                        ("parents", JArr [JStr "folder-1"])] in
  during w (snd (snd run)) =
    [RemoteCall
       "https://www.googleapis.com/upload/drive/v3/files?uploadType=multipart&fields=id, name, mimeType, modifiedTime, size, parents, webViewLink, description, trashed, createdTime"
       (sending "POST" "multipart/related; boundary=-----gdrive-mcp-boundary"
          (body (buildMultipart metadata "<p>hi</p>" "text/html")))
       "Bearer AT1"] ∧
  fst run = Return (textResponse (
    "Created file: " +:+ quoted "Report" +:+ NL +:+ "ID: d1" +:+ NL
    +:+ "Type: application/vnd.google-apps.document" +:+ NL +:+ "Link: N/A")).
Proof. vm_compute. split; reflexivity. Qed.

End ToolExamples.

Section IndexExamples.
Import Js Http Index.

Lemma refreshGoogleAccessToken_answered_witness :
  let run := refreshGoogleAccessToken Node.refreshing
               (Node.provider [Node.answer 200 Node.renewed]) in
  fst run = inl {| accessTokenProps :=
                     {| accessToken := "AT2"; refreshToken := "RT1";
                        expiresAt := 1000040 + 3600 * 1000; userId := Some "u1";
                        googleClientId := Some "client-id";
                        googleClientSecret := Some "client-secret" |};
                   newProps :=
                     {| accessToken := "AT2"; refreshToken := "RT1";
                        expiresAt := 1000040 + 3600 * 1000; userId := Some "u1";
                        googleClientId := Some "client-id";
                        googleClientSecret := Some "client-secret" |};
                   accessTokenTTL := 3540 |} ∧
  fst (refreshGoogleAccessToken Node.refreshing
         (Node.provider [Node.answer 400
            {| access_token := None; expires_in := None; refresh_token := None;
               error := Some "invalid_grant"; error_description := None |}])) =
    inr (Error "invalid_grant: Google token refresh failed").
Proof.
  cbn zeta. split.
  - destruct (refreshGoogleAccessToken_answered Node.refreshing Node.grant
                "client-id" "client-secret"
                (Node.provider [Node.answer 200 Node.renewed]) _ _ _ _
                eq_refl ltac:(discriminate) eq_refl ltac:(discriminate)
                eq_refl ltac:(discriminate) eq_refl eq_refl eq_refl)
      as (_ & _ & Hgood).
    destruct (Hgood "AT2" 3600 eq_refl eq_refl ltac:(discriminate) eq_refl
                ltac:(discriminate)) as (result & Hres & _).
    reflexivity.
  - destruct (refreshGoogleAccessToken_answered Node.refreshing Node.grant
                "client-id" "client-secret"
                (Node.provider [Node.answer 400
                   {| access_token := None; expires_in := None; refresh_token := None;
                      error := Some "invalid_grant"; error_description := None |}])
                _ _ _ _
                eq_refl ltac:(discriminate) eq_refl ltac:(discriminate)
                eq_refl ltac:(discriminate) eq_refl eq_refl eq_refl)
      as (_ & Hbad & _).
    exact (Hbad (or_introl eq_refl)).
Defined.

End IndexExamples.

